(** * Booking service: members, inventory and bookings (booking.py)

    A shallow embedding of the three request handlers of [booking.py]
    ([import_data], [book_item], [cancel_booking]) together with the parts of
    the Python runtime they rely on, and the properties of the service proved
    over that embedding.

    Conventions.
    - A Python [str] is a [string]; a character is read as the code point
      of the same number, so the embedding covers code points U+0000 to
      U+00FF.
    - A Python [int] is a [Z].
    - A database table is a finite map from the integer primary key to the row;
      the three tables form the [store].  A handler works on a [db]: whether
      the tables have been created, the committed store, the session's
      pending unit of work, and the list of snapshots committed so far.
    - An INTEGER column and a bound parameter of a query hold a signed
      64-bit integer: the commit of an import whose counters do not fit
      raises, and so does the lookup by an id that does not fit.  The rows
      of a table have 64-bit keys; the lookup finds a row before it looks
      at the range ([query_get_range]). *)

From Stdlib Require Import ZArith String Ascii List Bool Lia.
From stdpp Require Import gmap strings list fin_maps.

Local Open Scope string_scope.
Local Open Scope Z_scope.

(** ** Python runtime *)

Module Py.

(** [str.isspace] on a single character, for the code points below U+0100:
    the ASCII controls TAB..CR, FS..US, the space, NEL and the no-break
    space. *)
Definition is_space (c : ascii) : bool :=
  let n := N_of_ascii c in
  ((9 <=? n) && (n <=? 13) || (28 <=? n) && (n <=? 32)
   || (n =? 133) || (n =? 160))%N.

(** The decimal value of a digit character, as [\d] and [int] see it. *)
Definition digit_val (c : ascii) : option Z :=
  let n := N_of_ascii c in
  if ((48 <=? n) && (n <=? 57))%N then Some (Z.of_N n - 48) else None.

Definition is_digit (c : ascii) : bool :=
  match digit_val c with Some _ => true | None => false end.

Fixpoint lstrip (s : string) : string :=
  match s with
  | EmptyString => EmptyString
  | String c s' => if is_space c then lstrip s' else s
  end.

Fixpoint rstrip (s : string) : string :=
  match s with
  | EmptyString => EmptyString
  | String c s' =>
      match rstrip s' with
      | EmptyString => if is_space c then EmptyString else String c EmptyString
      | r => String c r
      end
  end.

(** [s.strip()] *)
Definition strip (s : string) : string := rstrip (lstrip s).

Fixpoint all_space (s : string) : bool :=
  match s with
  | EmptyString => true
  | String c s' => is_space c && all_space s'
  end.

Definition first_char (s : string) : option ascii :=
  match s with
  | EmptyString => None
  | String c _ => Some c
  end.

Fixpoint last_char (s : string) : option ascii :=
  match s with
  | EmptyString => None
  | String c EmptyString => Some c
  | String _ s' => last_char s'
  end.

(** Truthiness of a [str]: only the empty string is falsy. *)
Definition truthy (s : string) : bool :=
  match s with EmptyString => false | _ => true end.

(** [str(value)] for a value that is a [str] or [None]. *)
Definition str (value : option string) : string :=
  match value with
  | Some s => s
  | None => "None"
  end.

(** The interpreter's default bound on the number of digits [int] converts
    ([sys.get_int_max_str_digits()]). *)
Definition int_max_str_digits : nat := 4300.

(** The digits of a decimal literal: digits separated by single underscores.
    [prev] tells whether the previous character was a digit; [n] counts the
    digits read. *)
Fixpoint int_digits (acc : Z) (n : nat) (prev : bool) (s : string)
  : option (Z * nat) :=
  match s with
  | EmptyString => if prev then Some (acc, n) else None
  | String c s' =>
      match digit_val c with
      | Some d => int_digits (10 * acc + d) (S n) true s'
      | None =>
          if Ascii.eqb c "_" then
            if prev then int_digits acc n false s' else None
          else None
      end
  end.

(** [int(s)] in base ten; [None] stands for [ValueError]. *)
Definition int (s : string) : option Z :=
  let body (sign : Z) (t : string) :=
    match int_digits 0 0 false t with
    | Some (v, n) =>
        if (int_max_str_digits <? n)%nat then None else Some (sign * v)
    | None => None
    end in
  match strip s with
  | String "-" t => body (-1) t
  | String "+" t => body 1 t
  | t => body 1 t
  end.

End Py.

(** ** [datetime] and [datetime.strptime] *)

Module Datetime.

Record datetime : Type := mk_datetime {
  year : Z; month : Z; day : Z; hour : Z; minute : Z; second : Z
}.

Definition MINYEAR : Z := 1.
Definition MAXYEAR : Z := 9999.

Definition is_leap (y : Z) : bool :=
  (y mod 4 =? 0) && (negb (y mod 100 =? 0) || (y mod 400 =? 0)).

Definition days_in_month (y m : Z) : Z :=
  if m =? 2 then (if is_leap y then 29 else 28)
  else if (m =? 4) || (m =? 6) || (m =? 9) || (m =? 11) then 30
  else 31.

(** The range checks of the [date] constructor. *)
Definition valid_date (y m d : Z) : bool :=
  (MINYEAR <=? y) && (y <=? MAXYEAR) && (1 <=? m) && (m <=? 12)
  && (1 <=? d) && (d <=? days_in_month y m).

(** The range checks of the time fields of the [datetime] constructor. *)
Definition valid_time (h mi s : Z) : bool :=
  (0 <=? h) && (h <=? 23) && (0 <=? mi) && (mi <=? 59)
  && (0 <=? s) && (s <=? 59).

(** [datetime(y, m, d, h, mi, s)]; [None] stands for [ValueError]. *)
Definition new (y m d h mi s : Z) : option datetime :=
  if valid_date y m d && valid_time h mi s
  then Some (mk_datetime y m d h mi s) else None.

(** Chronological order, [a < b] on two datetimes. *)
Definition ltb (a b : datetime) : bool :=
  let key (t : datetime) :=
    ((((year t * 100 + month t) * 100 + day t) * 100 + hour t) * 100
       + minute t) * 100 + second t in
  key a <? key b.

(** *** The directives of [_strptime.TimeRE] used by the service *)

Inductive directive : Type := dY | dm | dd | dH | dM | dS | dy.

Inductive fmt_item : Type :=
| Dir (d : directive)
| Lit (c : ascii).

(** One position of a directive's regular expression. *)
Inductive cls : Type :=
| Digit                      (* \d *)
| Range (lo hi : ascii)      (* [lo-hi] *)
| Chr (c : ascii).

(** The alternatives of each directive, in the order the regular expression
    lists them. *)
Definition directive_regex (d : directive) : list (list cls) :=
  match d with
  | dd => [ [Chr "3"; Range "0" "1"]; [Range "1" "2"; Digit];
            [Chr "0"; Range "1" "9"]; [Range "1" "9"];
            [Chr " "; Range "1" "9"] ]
  | dH => [ [Chr "2"; Range "0" "3"]; [Range "0" "1"; Digit]; [Digit] ]
  | dm => [ [Chr "1"; Range "0" "2"]; [Chr "0"; Range "1" "9"];
            [Range "1" "9"] ]
  | dM => [ [Range "0" "5"; Digit]; [Digit] ]
  | dS => [ [Chr "6"; Range "0" "1"]; [Range "0" "5"; Digit]; [Digit] ]
  | dy => [ [Digit; Digit] ]
  | dY => [ [Digit; Digit; Digit; Digit] ]
  end.

Definition directive_of (c : ascii) : option directive :=
  if Ascii.eqb c "Y" then Some dY else
  if Ascii.eqb c "m" then Some dm else
  if Ascii.eqb c "d" then Some dd else
  if Ascii.eqb c "H" then Some dH else
  if Ascii.eqb c "M" then Some dM else
  if Ascii.eqb c "S" then Some dS else
  if Ascii.eqb c "y" then Some dy else None.

(** [TimeRE.pattern]: a format string as a sequence of directives and
    literal characters.  Directives outside the table above, a stray [%]
    and white space in the format are not covered ([None]). *)
Fixpoint compile (format : string) : option (list fmt_item) :=
  match format with
  | EmptyString => Some []
  | String "%" (String c rest) =>
      match directive_of c, compile rest with
      | Some d, Some items => Some (Dir d :: items)
      | _, _ => None
      end
  | String c rest =>
      if Ascii.eqb c "%" || Py.is_space c then None
      else match compile rest with
           | Some items => Some (Lit c :: items)
           | None => None
           end
  end.

(** Case folding of one character, as [re.IGNORECASE] compares literals. *)
Definition lower (c : ascii) : ascii :=
  let n := N_of_ascii c in
  if ((65 <=? n) && (n <=? 90)
      || (192 <=? n) && (n <=? 222) && negb (n =? 215))%N
  then ascii_of_N (n + 32) else c.

Definition cls_match (k : cls) (c : ascii) : bool :=
  match k with
  | Digit => Py.is_digit c
  | Range lo hi =>
      ((N_of_ascii lo <=? N_of_ascii c) && (N_of_ascii c <=? N_of_ascii hi))%N
  | Chr x => Ascii.eqb x c
  end.

(** Match one alternative at the head of [s]: the captured text and the
    rest of the input. *)
Fixpoint match_alt (alt : list cls) (s : string) : option (string * string) :=
  match alt with
  | [] => Some (EmptyString, s)
  | k :: alt' =>
      match s with
      | EmptyString => None
      | String c s' =>
          if cls_match k c then
            match match_alt alt' s' with
            | Some (cap, rest) => Some (String c cap, rest)
            | None => None
            end
          else None
      end
  end.

(** [re.match] of the compiled format at the start of [s], by
    backtracking: the alternatives of a directive are tried in order, and an
    alternative is kept only if the rest of the format matches after it.
    The result is the captured group of each directive and the unmatched
    rest of the input. *)
Fixpoint re_match (items : list fmt_item) (s : string)
  : option (list (directive * string) * string) :=
  match items with
  | [] => Some ([], s)
  | Lit c :: items' =>
      match s with
      | String c' s' =>
          if Ascii.eqb (lower c) (lower c') then re_match items' s' else None
      | EmptyString => None
      end
  | Dir d :: items' =>
      let try_alt (alt : list cls) :=
        match match_alt alt s with
        | Some (cap, rest) =>
            match re_match items' rest with
            | Some (found, r) => Some ((d, cap) :: found, r)
            | None => None
            end
        | None => None
        end in
      (fix first (alts : list (list cls)) :=
         match alts with
         | [] => None
         | alt :: alts' =>
             match try_alt alt with
             | Some res => Some res
             | None => first alts'
             end
         end) (directive_regex d)
  end.

(** The fields [_strptime] fills while it walks over the groups found. *)
Record fields : Type := mk_fields {
  f_year : option Z; f_month : Z; f_day : Z;
  f_hour : Z; f_minute : Z; f_second : Z
}.

Definition fields0 : fields := mk_fields None 1 1 0 0 0.

Definition set_field (f : fields) (g : directive * string) : option fields :=
  match Py.int (snd g) with
  | None => None
  | Some v =>
      Some match fst g with
           | dy => mk_fields (Some (if v <=? 68 then v + 2000 else v + 1900))
                     (f_month f) (f_day f) (f_hour f) (f_minute f) (f_second f)
           | dY => mk_fields (Some v)
                     (f_month f) (f_day f) (f_hour f) (f_minute f) (f_second f)
           | dm => mk_fields (f_year f) v (f_day f)
                     (f_hour f) (f_minute f) (f_second f)
           | dd => mk_fields (f_year f) (f_month f) v
                     (f_hour f) (f_minute f) (f_second f)
           | dH => mk_fields (f_year f) (f_month f) (f_day f)
                     v (f_minute f) (f_second f)
           | dM => mk_fields (f_year f) (f_month f) (f_day f)
                     (f_hour f) v (f_second f)
           | dS => mk_fields (f_year f) (f_month f) (f_day f)
                     (f_hour f) (f_minute f) v
           end
  end.

Fixpoint set_fields (f : fields) (found : list (directive * string))
  : option fields :=
  match found with
  | [] => Some f
  | g :: found' =>
      match set_field f g with
      | Some f' => set_fields f' found'
      | None => None
      end
  end.

(** The year [_strptime] assumes when the format has none. *)
Definition default_year (f : fields) : Z :=
  match f_year f with
  | Some y => y
  | None => if (f_month f =? 2) && (f_day f =? 29) then 1904 else 1900
  end.

(** [datetime.strptime(data_string, format)]; [None] stands for
    [ValueError]: the text does not match the format, text is left over
    after the match, or the fields are not a calendar date and time. *)
Definition strptime (data_string format : string) : option datetime :=
  match compile format with
  | None => None
  | Some items =>
      match re_match items data_string with
      | Some (found, EmptyString) =>
          match set_fields fields0 found with
          | Some f =>
              let y := default_year f in
              if valid_date y (f_month f) (f_day f)
              then new y (f_month f) (f_day f)
                       (f_hour f) (f_minute f) (f_second f)
              else None
          | None => None
          end
      | _ => None
      end
  end.

End Datetime.

Export Datetime(datetime, mk_datetime, directive(..), fmt_item(..)).

(** ** The tables *)

Record Member : Type := mk_Member {
  name : string;
  surname : string;
  booking_count : Z;
  date_joined : datetime
}.

Record Inventory : Type := mk_Inventory {
  title : string;
  description : string;
  remaining_count : Z;
  expiration_date : datetime
}.

Record Booking : Type := mk_Booking {
  booking_datetime : datetime;
  member_id : Z;
  inventory_id : Z
}.

(** The committed content of the database; the key of a row is its [id]. *)
Record store : Type := mk_store {
  members : gmap Z Member;
  inventory : gmap Z Inventory;
  bookings : gmap Z Booking
}.

Definition empty_store : store := mk_store ∅ ∅ ∅.

(** ** The session: a unit of work over the store *)

(** What a handler leaves pending in [db.session] until the commit. *)
Inductive pending : Type :=
| add_member (m : Member)                    (* db.session.add(member) *)
| add_inventory (i : Inventory)              (* db.session.add(inventory) *)
| add_booking (member_id inventory_id : Z)   (* db.session.add(booking) *)
| set_booking_count (id : Z) (v : Z)         (* member.booking_count = v *)
| set_remaining_count (id : Z) (v : Z)       (* item.remaining_count = v *)
| delete_booking (id : Z).                   (* db.session.delete(booking) *)

Record db : Type := mk_database {
  tables : bool;              (* [db.create_all()] has created the tables *)
  disk : store;               (* what is committed *)
  session : list pending;     (* the pending changes, oldest first *)
  commits : list store        (* every snapshot committed, newest first *)
}.

(** A database whose tables exist. *)
Definition mk_db (disk : store) (session : list pending) (commits : list store)
  : db :=
  mk_database true disk session commits.

(** The database before the first import: no table exists. *)
Definition no_tables : db := mk_database false empty_store [] [].

(** [db.create_all()] *)
Definition create_all (d : db) : db :=
  mk_database true (disk d) (session d) (commits d).

(** The integers an INTEGER column or a bound parameter can hold. *)
Definition min_int64 : Z := -9223372036854775808.
Definition max_int64 : Z := 9223372036854775807.

Definition int64 (z : Z) : bool := (min_int64 <=? z) && (z <=? max_int64).

(** The text of the [OverflowError] that the driver raises for an integer
    outside that range. *)
Definition overflow_message : string :=
  "Python int too large to convert to SQLite INTEGER".

(** [Model.query.get(id)]: the row under the key [id]; when no row has that
    key, [None] if the key fits in 64 bits, and otherwise the driver's
    [OverflowError] (the keys of the rows all fit). *)
Inductive lookup_result (A : Type) : Type :=
| Row (x : A)
| NoRow
| LookupRaises.

Arguments Row {A} x.
Arguments NoRow {A}.
Arguments LookupRaises {A}.

Definition query_get {A} (t : gmap Z A) (id : Z) : lookup_result A :=
  match t !! id with
  | Some x => Row x
  | None => if int64 id then NoRow else LookupRaises
  end.

Definition lookup_raises {A} (t : gmap Z A) (id : Z) : bool :=
  match query_get t id with
  | LookupRaises => true
  | _ => false
  end.

(** The largest key in use, if any. *)
Definition max_key {A} (t : gmap Z A) : option Z :=
  map_fold (λ k _ acc, Some match acc with
                            | Some a => Z.max k a
                            | None => k
                            end) None t.

(** The key an integer primary key column gives to a new row: 1 in an empty
    table, and otherwise one more than the largest key in use. *)
Definition next_id {A} (t : gmap Z A) : Z :=
  match max_key t with
  | Some a => a + 1
  | None => 1
  end.

Definition with_booking_count (v : Z) (m : Member) : Member :=
  mk_Member (name m) (surname m) v (date_joined m).

Definition with_remaining_count (v : Z) (i : Inventory) : Inventory :=
  mk_Inventory (title i) (description i) v (expiration_date i).

Definition with_expiration_date (e : datetime) (i : Inventory) : Inventory :=
  mk_Inventory (title i) (description i) (remaining_count i) e.

(** Write one pending change to the store.  [utcnow] is the clock reading
    that fills [booking_datetime] (the column's default).  The second
    component is the key given to an inserted row. *)
Definition flush_one (utcnow : datetime) (s : store) (p : pending)
  : store * option Z :=
  match p with
  | add_member m =>
      let k := next_id (members s) in
      (mk_store (<[k := m]> (members s)) (inventory s) (bookings s), Some k)
  | add_inventory i =>
      let k := next_id (inventory s) in
      (mk_store (members s) (<[k := i]> (inventory s)) (bookings s), Some k)
  | add_booking mid iid =>
      let k := next_id (bookings s) in
      (mk_store (members s) (inventory s)
         (<[k := mk_Booking utcnow mid iid]> (bookings s)), Some k)
  | set_booking_count id v =>
      (mk_store (alter (with_booking_count v) id (members s))
         (inventory s) (bookings s), None)
  | set_remaining_count id v =>
      (mk_store (members s)
         (alter (with_remaining_count v) id (inventory s)) (bookings s), None)
  | delete_booking id =>
      (mk_store (members s) (inventory s) (delete id (bookings s)), None)
  end.

(** Write the pending changes in order; the keys of the inserted rows are
    returned in the order of insertion. *)
Fixpoint flush (utcnow : datetime) (s : store) (ps : list pending)
  : store * list Z :=
  match ps with
  | [] => (s, [])
  | p :: ps' =>
      let '(s1, k) := flush_one utcnow s p in
      let '(s2, ks) := flush utcnow s1 ps' in
      (s2, match k with Some k => k :: ks | None => ks end)
  end.

Definition session_add (p : pending) (d : db) : db :=
  mk_database (tables d) (disk d) (session d ++ [p]) (commits d).

(** Whether the driver takes the integers of a pending change.  The counter
    of an inserted Member or Inventory row is what [safe_int] read from the
    file, any integer.  A counter that [book_item] or [cancel_booking]
    writes is a stored counter moved by one; [reachable_counters_fit] shows
    that it fits in every store the service reaches, and it is written
    unchecked. *)
Definition writable (p : pending) : bool :=
  match p with
  | add_member m => int64 (booking_count m)
  | add_inventory i => int64 (remaining_count i)
  | _ => true
  end.

(** [db.session.commit()]: the only place where [disk] changes.  [None]
    stands for the [OverflowError] of a change that is not [writable]:
    nothing is written. *)
Definition session_commit (utcnow : datetime) (d : db)
  : option (db * list Z) :=
  if forallb writable (session d) then
    let '(s, ks) := flush utcnow (disk d) (session d) in
    Some (mk_database (tables d) s [] (s :: commits d), ks)
  else None.

(** [db.session.rollback()] *)
Definition session_rollback (d : db) : db :=
  mk_database (tables d) (disk d) [] (commits d).

(** A fresh session over a committed store, as each request starts, in a
    database whose tables exist.  (Before they exist the store is empty and
    no request but an import changes it: [handle_no_tables].) *)
Definition connect (s : store) : db := mk_db s [] [].

(** ** Responses *)

Inductive response : Type :=
| Message (message : string) (booking_id : option Z)  (* 200, jsonify(...) *)
| Error (error : string) (status : Z)                 (* jsonify(error), status *)
| Uncaught.     (* an exception no handler catches *)

(** ** [import_data] *)

(** A row of [csv.DictReader]: [row.get(k)] is the text of column [k], or
    [None] when the row has no such field. *)
Definition row_get (row : gmap string string) (k : string) : option string :=
  row !! k.

(** What opening and reading a source file gives: the file is not there, or
    its rows followed by the end of the file or by an error of the reader. *)
Inductive read_end : Type :=
| end_of_file
| read_error (detail : string).

Inductive csv_file : Type :=
| file_not_found
| readable (rows : list (gmap string string)) (e : read_end).

Definition safe_text (value : option string) : string :=
  let default := "" in
  match value with
  | None => default
  | Some v => if Py.truthy v then Py.strip v else default
  end.

Definition safe_int (value : option string) : Z :=
  let default := 0 in
  match value with
  | None => default
  | Some v =>
      if Py.truthy v && Py.truthy (Py.strip v) then
        match Py.int (Py.strip v) with
        | Some n => n
        | None => default          (* except ValueError *)
        end
      else default
  end.

Definition formats : list string :=
  [ "%Y-%m-%dT%H:%M:%S"; "%d/%m/%Y"; "%d-%m-%Y"; "%Y-%m-%d"; "%d/%m/%y";
    "%d-%m-%y" ].

(** The loop of [parse_date] over the formats; [None] is the [ValueError]
    raised after the loop. *)
Fixpoint try_formats (date_str : string) (fmts : list string)
  : option datetime :=
  match fmts with
  | [] => None
  | fmt :: fmts' =>
      match Datetime.strptime date_str fmt with
      | Some t => Some t
      | None => try_formats date_str fmts'
      end
  end.

Definition parse_date (date_str : option string) : option datetime :=
  let date_str := Py.strip (Py.str date_str) in
  try_formats date_str formats.

(** The body of the [try] of the members loop; [None] when it raises. *)
Definition member_of_row (row : gmap string string) : option Member :=
  let name := safe_text (row_get row "name") in
  let surname := safe_text (row_get row "surname") in
  let booking_count := safe_int (row_get row "booking_count") in
  match parse_date (row_get row "date_joined") with
  | Some date_joined => Some (mk_Member name surname booking_count date_joined)
  | None => None
  end.

Definition inventory_of_row (row : gmap string string) : option Inventory :=
  let title := safe_text (row_get row "title") in
  let description := safe_text (row_get row "description") in
  let remaining_count := safe_int (row_get row "remaining_count") in
  match parse_date (row_get row "expiration_date") with
  | Some expiration_date =>
      Some (mk_Inventory title description remaining_count expiration_date)
  | None => None
  end.

Fixpoint import_members (rows : list (gmap string string)) (d : db) : db :=
  match rows with
  | [] => d
  | row :: rows' =>
      match member_of_row row with
      | Some member => import_members rows' (session_add (add_member member) d)
      | None => import_members rows' d          (* except: continue *)
      end
  end.

Fixpoint import_inventory (rows : list (gmap string string)) (d : db) : db :=
  match rows with
  | [] => d
  | row :: rows' =>
      match inventory_of_row row with
      | Some item => import_inventory rows' (session_add (add_inventory item) d)
      | None => import_inventory rows' d
      end
  end.

Definition import_failed (detail : string) : response :=
  Error ("Import failed: " ++ detail) 500.

Definition import_data (utcnow : datetime) (member_csv inventory_csv : csv_file)
  (d : db) : response * db :=
  let d := create_all d in
  match member_csv with
  | file_not_found => (Error "member.csv not found" 404, d)
  | readable rows e =>
      let d := import_members rows d in
      match e with
      | read_error detail => (import_failed detail, session_rollback d)
      | end_of_file =>
          match inventory_csv with
          | file_not_found => (Error "inventory.csv not found" 404, d)
          | readable rows e =>
              let d := import_inventory rows d in
              match e with
              | read_error detail => (import_failed detail, session_rollback d)
              | end_of_file =>
                  match session_commit utcnow d with
                  | Some (d, _) =>
                      (Message "Data imported successfully" None, d)
                  | None =>
                      (import_failed overflow_message, session_rollback d)
                  end
              end
          end
      end
  end.

(** ** [book_item] *)

Definition MAX_BOOKINGS : Z := 2.

Definition book_item (utcnow : datetime) (data_member_id data_inventory_id : Z)
  (d : db) : response * db :=
  if negb (tables d) then (Uncaught, d)     (* no such table *)
  else
    match query_get (members (disk d)) data_member_id with
    | LookupRaises => (Uncaught, d)
    | member =>
        match query_get (inventory (disk d)) data_inventory_id with
        | LookupRaises => (Uncaught, d)
        | item =>
            match member, item with
            | Row member, Row item =>
                if MAX_BOOKINGS <=? booking_count member then
                  (Error "Maximum bookings reached" 400, d)
                else if remaining_count item <=? 0 then
                  (Error "Item not available" 400, d)
                else
                  let d := session_add
                             (set_booking_count data_member_id
                                (booking_count member + 1)) d in
                  let d := session_add
                             (set_remaining_count data_inventory_id
                                (remaining_count item - 1)) d in
                  let d := session_add
                             (add_booking data_member_id data_inventory_id) d in
                  match session_commit utcnow d with
                  | Some (d, ks) => (Message "Booking successful" (head ks), d)
                  | None => (Uncaught, d)
                  end
            | _, _ => (Error "Member or item not found" 404, d)
            end
        end
    end.

(** ** [cancel_booking] *)

Definition cancel_booking (utcnow : datetime) (booking_id : Z) (d : db)
  : response * db :=
  if negb (tables d) then (Uncaught, d)     (* no such table *)
  else
  match query_get (bookings (disk d)) booking_id with
  | LookupRaises => (Uncaught, d)
  | NoRow => (Error "Booking not found" 404, d)
  | Row booking =>
      let member := members (disk d) !! member_id booking in
      let item := inventory (disk d) !! inventory_id booking in
      match member with
      | None => (Uncaught, d)          (* member is None: AttributeError *)
      | Some member =>
          let d := session_add
                     (set_booking_count (member_id booking)
                        (booking_count member - 1)) d in
          match item with
          | None => (Uncaught, d)      (* item is None: AttributeError *)
          | Some item =>
              let d := session_add
                         (set_remaining_count (inventory_id booking)
                            (remaining_count item + 1)) d in
              let d := session_add (delete_booking booking_id) d in
              match session_commit utcnow d with
              | Some (d, _) =>
                  (Message "Booking cancelled successfully" None, d)
              | None => (Uncaught, d)
              end
          end
      end
  end.

(** ** The service as a transition system over the committed store *)

(** The ids of a request are integers: those of the JSON body of [/book],
    and the one that the [int] converter of [/cancel/<id>] reads from the
    path, which is never negative. *)
Inductive request : Type :=
| ReqImport (member_csv inventory_csv : csv_file)     (* POST /import *)
| ReqBook (member_id inventory_id : Z)                (* POST /book *)
| ReqCancel (booking_id : Z).                         (* POST /cancel/<id> *)

Definition handle (utcnow : datetime) (r : request) (d : db) : response * db :=
  match r with
  | ReqImport member_csv inventory_csv => import_data utcnow member_csv inventory_csv d
  | ReqBook member_id inventory_id => book_item utcnow member_id inventory_id d
  | ReqCancel booking_id => cancel_booking utcnow booking_id d
  end.

(** One request served over the committed store [s]: the response and the
    store left behind (what the session holds uncommitted is dropped with
    the session). *)
Definition serve (utcnow : datetime) (r : request) (s : store)
  : response * store :=
  let '(resp, d) := handle utcnow r (connect s) in (resp, disk d).

Definition step (utcnow : datetime) (r : request) (s : store) : store :=
  snd (serve utcnow r s).

(** The stores the service can be in when every request it has served
    satisfies [P]: the empty database, and what such a request leaves, at
    any time. *)
Inductive reachable_by (P : request → Prop) : store → Prop :=
| reach_empty : reachable_by P empty_store
| reach_step utcnow r s :
    P r → reachable_by P s → reachable_by P (step utcnow r s).

Definition reachable : store → Prop := reachable_by (λ _, True).

(** ** Notions used by the statements *)

(** The number of Booking rows that reference member [id], item [id]. *)
Definition member_bookings (s : store) (id : Z) : nat :=
  size (filter (λ kb : Z * Booking, member_id kb.2 = id) (bookings s)).

Definition item_bookings (s : store) (id : Z) : nat :=
  size (filter (λ kb : Z * Booking, inventory_id kb.2 = id) (bookings s)).

(** The counters agree with the Booking rows and respect their bounds. *)
Definition members_consistent (s : store) : Prop :=
  ∀ id m, members s !! id = Some m →
    booking_count m = Z.of_nat (member_bookings s id)
    ∧ booking_count m ≤ MAX_BOOKINGS.

Definition items_nonnegative (s : store) : Prop :=
  ∀ id i, inventory s !! id = Some i → 0 ≤ remaining_count i.

(** The units of an item, free or booked. *)
Definition stock (s : store) (id : Z) (i : Inventory) : Z :=
  remaining_count i + Z.of_nat (item_bookings s id).

(** Every Booking row references a member and an item that exist. *)
Definition linked (s : store) : Prop :=
  ∀ bid b, bookings s !! bid = Some b →
    is_Some (members s !! member_id b)
    ∧ is_Some (inventory s !! inventory_id b).

(** [t] is [v] without the white space at its two ends. *)
Definition trimmed_of (v t : string) : Prop :=
  (∃ l r, v = String.append l (String.append t r)
          ∧ Py.all_space l = true ∧ Py.all_space r = true)
  ∧ (∀ c, Py.first_char t = Some c → Py.is_space c = false)
  ∧ (∀ c, Py.last_char t = Some c → Py.is_space c = false).

(** Import sources whose member rows start with no booking and whose
    inventory rows carry no negative count. *)
Definition unbooked_row (row : gmap string string) : Prop :=
  safe_int (row_get row "booking_count") = 0.

Definition stocked_row (row : gmap string string) : Prop :=
  0 ≤ safe_int (row_get row "remaining_count").

Definition rows_of (f : csv_file) : list (gmap string string) :=
  match f with
  | file_not_found => []
  | readable rows _ => rows
  end.

Definition plain_import (r : request) : Prop :=
  match r with
  | ReqImport member_csv inventory_csv =>
      Forall unbooked_row (rows_of member_csv)
      ∧ Forall stocked_row (rows_of inventory_csv)
  | _ => True
  end.

(** Insert the rows of [l] one after the other, each under the next key. *)
Definition add_all {A} (t : gmap Z A) (l : list A) : gmap Z A :=
  foldl (λ t x, <[next_id t := x]> t) t l.

(** The store after a successful booking / cancellation. *)
Definition booked (utcnow : datetime) (s : store) (mid iid : Z)
  (m : Member) (i : Inventory) (bid : Z) : store :=
  mk_store (<[mid := with_booking_count (booking_count m + 1) m]> (members s))
           (<[iid := with_remaining_count (remaining_count i - 1) i]> (inventory s))
           (<[bid := mk_Booking utcnow mid iid]> (bookings s)).

Definition cancelled (s : store) (bid : Z) (b : Booking)
  (m : Member) (i : Inventory) : store :=
  mk_store (<[member_id b := with_booking_count (booking_count m - 1) m]> (members s))
           (<[inventory_id b := with_remaining_count (remaining_count i + 1) i]>
              (inventory s))
           (delete bid (bookings s)).

(** The counters of the records fit in 64 bits, as the commit of an import
    needs them to. *)
Definition fits (ms : list Member) (items : list Inventory) : bool :=
  forallb (λ m, int64 (booking_count m)) ms
  && forallb (λ i, int64 (remaining_count i)) items.

(** The store after a successful import of the given records. *)
Definition imported (s : store) (ms : list Member) (items : list Inventory)
  : store :=
  mk_store (add_all (members s) ms) (add_all (inventory s) items) (bookings s).

(** ** Sample data *)

Definition t0 : datetime := mk_datetime 2024 1 5 10 0 0.
Definition t1 : datetime := mk_datetime 2031 6 1 9 30 0.

Definition ann (booking_count : Z) : Member :=
  mk_Member "Ann" "Lee" booking_count t0.

Definition bike (remaining_count : Z) : Inventory :=
  mk_Inventory "Bike" "" remaining_count (mk_datetime 2030 11 19 0 0 0).

(** One member and one item with the given counters, and no booking. *)
Definition shop (booking_count remaining_count : Z) : store :=
  mk_store {[ 1 := ann booking_count ]} {[ 1 := bike remaining_count ]} ∅.

(** The same with one booking of the item by the member. *)
Definition shop_booked (booking_count remaining_count : Z) : store :=
  mk_store {[ 1 := ann booking_count ]} {[ 1 := bike remaining_count ]}
           {[ 1 := mk_Booking t0 1 1 ]}.

Definition row_ann : gmap string string :=
  list_to_map [ ("name", "Ann"); ("surname", "Lee"); ("booking_count", "0");
                ("date_joined", "2024-01-05T10:00:00") ].

Definition row_bob : gmap string string :=
  list_to_map [ ("name", " Bob "); ("surname", ""); ("booking_count", "two");
                ("date_joined", "31/02/2024") ].

Definition row_bike : gmap string string :=
  list_to_map [ ("title", "Bike"); ("remaining_count", " 3 ");
                ("expiration_date", "19/11/2030") ].

Definition row_kite : gmap string string :=
  list_to_map [ ("title", "Kite"); ("description", "red");
                ("remaining_count", "1"); ("expiration_date", "2030-02-30") ].

Definition row_eve : gmap string string :=
  list_to_map [ ("name", "Eve"); ("surname", "Orr"); ("booking_count", "3");
                ("date_joined", "05-01-24") ].

Definition row_max : gmap string string :=
  list_to_map [ ("name", "Max"); ("surname", "Orr");
                ("booking_count", "9223372036854775808");
                ("date_joined", "2024-01-05") ].

Definition row_oar : gmap string string :=
  list_to_map [ ("title", "Oar"); ("remaining_count", "-1");
                ("expiration_date", "2030-11-19") ].

(** ** Sequences of requests *)

(** The store after serving the requests of [reqs] in order, each at its
    time. *)
Definition run (reqs : list (datetime * request)) (s : store) : store :=
  foldl (λ s tr, step tr.1 tr.2 s) s reqs.

(** [r] asks for a cancellation. *)
Definition is_cancel (r : request) : bool :=
  match r with ReqCancel _ => true | _ => false end.

(** No request of [reqs] asks for a cancellation. *)
Definition no_cancel (reqs : list (datetime * request)) : Prop :=
  Forall (λ tr, is_cancel tr.2 = false) reqs.

(** The rows of a source file whose date column parses. *)
Definition dated (column : string) (rows : list (gmap string string))
  : list (gmap string string) :=
  filter (λ row, is_Some (parse_date (row_get row column))) rows.

(** What a member's counter holds beyond the Booking rows that reference
    the member. *)
Definition surplus (s : store) (id : Z) (m : Member) : Z :=
  booking_count m - Z.of_nat (member_bookings s id).

(** ** Dates and shapes of texts *)

(** [t] is a day of the calendar, with a time of the day. *)
Definition calendar (t : datetime) : Prop :=
  1 ≤ Datetime.year t ≤ 9999
  ∧ 1 ≤ Datetime.month t ≤ 12
  ∧ 1 ≤ Datetime.day t ≤ Datetime.days_in_month (Datetime.year t) (Datetime.month t)
  ∧ 0 ≤ Datetime.hour t ≤ 23
  ∧ 0 ≤ Datetime.minute t ≤ 59
  ∧ 0 ≤ Datetime.second t ≤ 59.

(** What a character is to a format: a digit or a space, which only a
    directive can match, or another character, up to case. *)
Inductive kind : Type :=
| KD
| KL (c : ascii).

#[global] Instance kind_eq_dec : EqDecision kind.
Proof. solve_decision. Defined.

Definition kind_of (c : ascii) : kind :=
  let y := Datetime.lower c in
  if Py.is_digit y || Ascii.eqb y " " then KD else KL y.

Definition shape (s : string) : list kind :=
  kind_of <$> list_ascii_of_string s.

(** The shapes of the texts that a compiled format can match: each
    directive stands for as many digits or spaces as one of its alternatives
    is long. *)
Fixpoint shapes (items : list fmt_item) : list (list kind) :=
  match items with
  | [] => [[]]
  | Lit c :: items' => (λ sh, kind_of c :: sh) <$> shapes items'
  | Dir d :: items' =>
      alt ← Datetime.directive_regex d;
      (λ sh, (replicate (length alt) KD ++ sh)%list) <$> shapes items'
  end.

Definition format_shapes (fmt : string) : list (list kind) :=
  match Datetime.compile fmt with
  | Some items => shapes items
  | None => []
  end.

(** A position of a regular expression that only digits and spaces match. *)
Definition cls_digitish (k : Datetime.cls) : bool :=
  match k with
  | Datetime.Digit => true
  | Datetime.Range lo hi => Py.is_digit lo && Py.is_digit hi
  | Datetime.Chr c => Py.is_digit c || Ascii.eqb c " "
  end.

(** The directives of a compiled format, in order. *)
Definition directives (items : list fmt_item) : list directive :=
  omap (λ it, match it with Dir d => Some d | Lit _ => None end) items.

(** * Properties *)

(** ** The service on sample data *)

Example strptime_iso :
  Datetime.strptime "2024-01-05T10:00:00" "%Y-%m-%dT%H:%M:%S"
  = Some (mk_datetime 2024 1 5 10 0 0).
Proof. vm_compute. reflexivity. Qed.

Example strptime_samples :
  Datetime.strptime "31/02/2024" "%d/%m/%Y" = None
  ∧ Datetime.strptime "29/02/2024" "%d/%m/%Y" = Some (mk_datetime 2024 2 29 0 0 0)
  ∧ Datetime.strptime "1/2/2024" "%d/%m/%Y" = Some (mk_datetime 2024 2 1 0 0 0)
  ∧ Datetime.strptime "01-02-69" "%d-%m-%y" = Some (mk_datetime 1969 2 1 0 0 0)
  ∧ Datetime.strptime "01-02-68" "%d-%m-%y" = Some (mk_datetime 2068 2 1 0 0 0)
  ∧ Datetime.strptime "01-02-2024" "%d-%m-%y" = None
  ∧ Datetime.strptime "2024-01-05t10:00:60" "%Y-%m-%dT%H:%M:%S" = None
  ∧ Datetime.strptime "2024-01-05T24:00:00" "%Y-%m-%dT%H:%M:%S" = None
  ∧ Datetime.strptime "0000-01-05" "%Y-%m-%d" = None.
Proof. vm_compute. repeat split; reflexivity. Qed.

Example parse_date_samples :
  parse_date (Some " 2024-01-05T10:00:00 ") = Some (mk_datetime 2024 1 5 10 0 0)
  ∧ parse_date (Some "19/11/2030") = Some (mk_datetime 2030 11 19 0 0 0)
  ∧ parse_date (Some "19-11-2030") = Some (mk_datetime 2030 11 19 0 0 0)
  ∧ parse_date (Some "2030-11-19") = Some (mk_datetime 2030 11 19 0 0 0)
  ∧ parse_date (Some "19/11/30") = Some (mk_datetime 2030 11 19 0 0 0)
  ∧ parse_date (Some "19-11-30") = Some (mk_datetime 2030 11 19 0 0 0)
  ∧ parse_date None = None
  ∧ parse_date (Some "") = None.
Proof. vm_compute. repeat split; reflexivity. Qed.

Example py_int_samples :
  Py.int " -1_000 " = Some (-1000) ∧ Py.int "007" = Some 7
  ∧ Py.int "12a" = None ∧ Py.int "" = None ∧ Py.int "1__0" = None
  ∧ Py.int "+-1" = None ∧ Py.int "0x10" = None.
Proof. vm_compute. repeat split; reflexivity. Qed.

(** The import of one member row and one inventory row into the empty
    database: the row [row_bob], whose date is [31/02/2024], leaves no
    record. *)
Example import_sample :
  serve t1 (ReqImport (readable [row_ann; row_bob] end_of_file)
                      (readable [row_bike] end_of_file)) empty_store
  = (Message "Data imported successfully" None,
     mk_store {[ 1 := mk_Member "Ann" "Lee" 0 (mk_datetime 2024 1 5 10 0 0) ]}
              {[ 1 := mk_Inventory "Bike" "" 3 (mk_datetime 2030 11 19 0 0 0) ]}
              ∅).
Proof. vm_compute. reflexivity. Qed.

Example book_sample :
  serve t1 (ReqBook 1 1) (shop 1 3)
  = (Message "Booking successful" (Some 1),
     mk_store {[ 1 := ann 2 ]} {[ 1 := bike 2 ]} {[ 1 := mk_Booking t1 1 1 ]})
  ∧ fst (serve t1 (ReqBook 1 1) (shop 2 3))
    = Error "Maximum bookings reached" 400
  ∧ fst (serve t1 (ReqBook 1 1) (shop 0 0)) = Error "Item not available" 400
  ∧ fst (serve t1 (ReqBook 1 2) (shop 0 3))
    = Error "Member or item not found" 404.
Proof. vm_compute. repeat split; reflexivity. Qed.

Example cancel_sample :
  serve t1 (ReqCancel 1) (shop_booked 2 2)
  = (Message "Booking cancelled successfully" None, shop 1 3)
  ∧ serve t1 (ReqCancel 9999) (shop_booked 2 2)
    = (Error "Booking not found" 404, shop_booked 2 2).
Proof. vm_compute. repeat split; reflexivity. Qed.

(** ** Keys and the unit of work *)

Lemma max_key_above {A} (t : gmap Z A) k x :
  t !! k = Some x → ∃ a, max_key t = Some a ∧ k ≤ a.
Proof.
  revert k x. unfold max_key.
  apply (map_fold_weak_ind
           (λ r (m : gmap Z A),
              ∀ k x, m !! k = Some x → ∃ a, r = Some a ∧ k ≤ a)).
  - intros k x Hk. by rewrite lookup_empty in Hk.
  - intros i y m r Hi IH k x Hk. eexists. split; [done|].
    destruct (decide (i = k)) as [->|Hne]; [destruct r; lia|].
    rewrite lookup_insert_ne in Hk by done.
    destruct (IH k x Hk) as (a & -> & Hle). lia.
Qed.

Lemma next_id_above {A} (t : gmap Z A) k x : t !! k = Some x → k < next_id t.
Proof.
  intros Hk. unfold next_id.
  destruct (max_key_above t k x Hk) as (a & -> & Hle). lia.
Qed.

Lemma next_id_fresh {A} (t : gmap Z A) : t !! next_id t = None.
Proof.
  destruct (t !! next_id t) as [x|] eqn:E; [|done].
  apply next_id_above in E. lia.
Qed.

Lemma alter_Some {A} (f : A → A) (t : gmap Z A) k x :
  t !! k = Some x → alter f k t = <[k := f x]> t.
Proof.
  intros Hk. apply map_eq. intros j.
  destruct (decide (k = j)) as [->|Hne].
  - by rewrite lookup_alter_eq, lookup_insert_eq, Hk.
  - by rewrite lookup_alter_ne, lookup_insert_ne.
Qed.

Lemma with_booking_count_same m : with_booking_count (booking_count m) m = m.
Proof. by destruct m. Qed.

Lemma with_remaining_count_same i :
  with_remaining_count (remaining_count i) i = i.
Proof. by destruct i. Qed.

Lemma query_get_Some {A} (t : gmap Z A) id x :
  t !! id = Some x → query_get t id = Row x.
Proof. unfold query_get. by intros ->. Qed.

Lemma query_get_None {A} (t : gmap Z A) id :
  t !! id = None → int64 id = true → query_get t id = NoRow.
Proof. unfold query_get. by intros -> ->. Qed.

Lemma query_get_raises {A} (t : gmap Z A) id :
  t !! id = None → int64 id = false → query_get t id = LookupRaises.
Proof. unfold query_get. by intros -> ->. Qed.

(** Over a table whose keys fit in 64 bits, as the keys of a table do, the
    lookup raises for exactly the ids that do not fit. *)
Lemma query_get_range {A} (t : gmap Z A) id :
  (∀ k x, t !! k = Some x → int64 k = true) →
  query_get t id
  = if int64 id then match t !! id with Some x => Row x | None => NoRow end
    else LookupRaises.
Proof.
  intros Hkeys. unfold query_get.
  destruct (t !! id) as [x|] eqn:Hid; [|done].
  by rewrite (Hkeys id x Hid).
Qed.

(** ** Creating a booking *)

Lemma book_item_ok utcnow mid iid s m i :
  members s !! mid = Some m →
  inventory s !! iid = Some i →
  booking_count m < 2 →
  0 < remaining_count i →
  book_item utcnow mid iid (connect s)
  = (Message "Booking successful" (Some (next_id (bookings s))),
     let s' := booked utcnow s mid iid m i (next_id (bookings s)) in
     mk_db s' [] [s']).
Proof.
  intros Hm Hi Hbc Hrc. unfold book_item. simpl.
  rewrite (query_get_Some _ _ _ Hm), (query_get_Some _ _ _ Hi).
  destruct (Z.leb_spec MAX_BOOKINGS (booking_count m)) as [H|_];
    [unfold MAX_BOOKINGS in H; lia|].
  destruct (Z.leb_spec (remaining_count i) 0) as [H|_]; [lia|].
  unfold session_commit, session_add, booked, mk_db. simpl.
  by rewrite (alter_Some _ _ _ _ Hm), (alter_Some _ _ _ _ Hi).
Qed.

Lemma serve_book_ok utcnow mid iid s m i :
  members s !! mid = Some m →
  inventory s !! iid = Some i →
  booking_count m < 2 →
  0 < remaining_count i →
  serve utcnow (ReqBook mid iid) s
  = (Message "Booking successful" (Some (next_id (bookings s))),
     booked utcnow s mid iid m i (next_id (bookings s))).
Proof.
  intros Hm Hi Hbc Hrc. unfold serve. simpl.
  by rewrite (book_item_ok utcnow mid iid s m i Hm Hi Hbc Hrc).
Qed.

(** The outcome of [book_item] in every case, once the tables exist. *)
Lemma book_item_cases utcnow mid iid d :
  tables d = true →
  match members (disk d) !! mid, inventory (disk d) !! iid with
  | Some m, Some i =>
      if 2 <=? booking_count m then
        book_item utcnow mid iid d = (Error "Maximum bookings reached" 400, d)
      else if remaining_count i <=? 0 then
        book_item utcnow mid iid d = (Error "Item not available" 400, d)
      else forallb writable (session d) = true →
           ∃ ks d', book_item utcnow mid iid d
                    = (Message "Booking successful" ks, d')
  | _, _ =>
      book_item utcnow mid iid d
      = (if lookup_raises (members (disk d)) mid
            || lookup_raises (inventory (disk d)) iid
         then Uncaught else Error "Member or item not found" 404, d)
  end.
Proof.
  intros Ht. unfold book_item, MAX_BOOKINGS, lookup_raises, query_get.
  rewrite Ht. cbn [negb].
  destruct (members (disk d) !! mid) as [m|];
    destruct (inventory (disk d) !! iid) as [i|];
    try (destruct (int64 mid); destruct (int64 iid); done);
    try (by destruct (int64 mid)); try (by destruct (int64 iid)).
  destruct (2 <=? booking_count m); [done|].
  destruct (remaining_count i <=? 0); [done|].
  intros Hw. unfold session_commit. simpl.
  rewrite !forallb_app, Hw. simpl.
  destruct (flush _ _ _) as [s' ks]. eauto.
Qed.

(** The committed store after [book_item], in every case. *)
Lemma book_item_disk_cases utcnow mid iid s :
  let d' := snd (book_item utcnow mid iid (connect s)) in
  (disk d' = s ∧ commits d' = [])
  ∨ (∃ m i,
       members s !! mid = Some m ∧ inventory s !! iid = Some i
       ∧ booking_count m < 2 ∧ 0 < remaining_count i
       ∧ disk d' = booked utcnow s mid iid m i (next_id (bookings s))
       ∧ commits d' = [disk d']).
Proof.
  pose proof (book_item_cases utcnow mid iid (connect s) eq_refl) as H.
  simpl in H.
  destruct (members s !! mid) as [m|] eqn:Hm;
    [|rewrite H; left; done].
  destruct (inventory s !! iid) as [i|] eqn:Hi;
    [|rewrite H; left; done].
  destruct (Z.leb_spec 2 (booking_count m)); [rewrite H; left; done|].
  destruct (Z.leb_spec (remaining_count i) 0); [rewrite H; left; done|].
  rewrite (book_item_ok utcnow mid iid s m i) by (done || lia).
  right. exists m, i. simpl. repeat split; done || lia.
Qed.

(** C2, as the code has it.  In a database whose tables exist, and for ids
    that fit in a signed 64-bit integer, [book_item] checks in this order: a
    member or inventory id that names no row gives the 404 "Member or item
    not found"; otherwise a member with [booking_count >= 2] gives the 400
    "Maximum bookings reached"; otherwise an item with
    [remaining_count <= 0] gives the 400 "Item not available".  Before the
    tables exist, and for an id that names no row and does not fit in 64
    bits, the lookup raises and no response is built.  In each of these
    cases the database is left as it was: nothing is committed and nothing
    is pending. *)
Theorem book_item_validation utcnow mid iid d :
  (tables d = true → int64 mid = true → int64 iid = true →
   members (disk d) !! mid = None ∨ inventory (disk d) !! iid = None →
   book_item utcnow mid iid d = (Error "Member or item not found" 404, d))
  ∧ (∀ m i,
       tables d = true →
       members (disk d) !! mid = Some m → inventory (disk d) !! iid = Some i →
       2 ≤ booking_count m →
       book_item utcnow mid iid d = (Error "Maximum bookings reached" 400, d))
  ∧ (∀ m i,
       tables d = true →
       members (disk d) !! mid = Some m → inventory (disk d) !! iid = Some i →
       booking_count m < 2 → remaining_count i ≤ 0 →
       book_item utcnow mid iid d = (Error "Item not available" 400, d))
  ∧ (tables d = false
     ∨ (members (disk d) !! mid = None ∧ int64 mid = false)
     ∨ (inventory (disk d) !! iid = None ∧ int64 iid = false) →
     book_item utcnow mid iid d = (Uncaught, d)).
Proof.
  split; [|split; [|split]].
  - intros Ht Hmid Hiid Hnone.
    pose proof (book_item_cases utcnow mid iid d Ht) as H.
    unfold lookup_raises, query_get in H. rewrite Hmid, Hiid in H.
    destruct Hnone as [Hm|Hi].
    + rewrite Hm in H. by destruct (inventory (disk d) !! iid).
    + rewrite Hi in H. by destruct (members (disk d) !! mid).
  - intros m i Ht Hm Hi Hbc.
    pose proof (book_item_cases utcnow mid iid d Ht) as H.
    rewrite Hm, Hi in H.
    by destruct (Z.leb_spec 2 (booking_count m)); [|lia].
  - intros m i Ht Hm Hi Hbc Hrc.
    pose proof (book_item_cases utcnow mid iid d Ht) as H.
    rewrite Hm, Hi in H.
    destruct (Z.leb_spec 2 (booking_count m)); [lia|].
    by destruct (Z.leb_spec (remaining_count i) 0); [|lia].
  - unfold book_item.
    destruct (tables d) eqn:Ht; [|done]. cbn [negb].
    intros [?|[[Hm Hmid]|[Hi Hiid]]]; [done| |].
    + by rewrite (query_get_raises _ _ Hm Hmid).
    + rewrite (query_get_raises _ _ Hi Hiid).
      by destruct (query_get (members (disk d)) mid).
Qed.

Lemma book_item_validation_witness :
  book_item t0 7 1 (connect (shop 0 3))
  = (Error "Member or item not found" 404, connect (shop 0 3))
  ∧ book_item t0 1 1 (connect (shop 2 3))
    = (Error "Maximum bookings reached" 400, connect (shop 2 3))
  ∧ book_item t0 1 1 (connect (shop 1 0))
    = (Error "Item not available" 400, connect (shop 1 0))
  ∧ book_item t0 1 1 no_tables = (Uncaught, no_tables)
  ∧ book_item t0 (max_int64 + 1) 1 (connect (shop 0 3))
    = (Uncaught, connect (shop 0 3)).
Proof.
  split; [|split; [|split; [|split]]].
  - apply (proj1 (book_item_validation t0 7 1 (connect (shop 0 3))));
      [reflexivity..|]. left. vm_compute. reflexivity.
  - apply (proj1 (proj2 (book_item_validation t0 1 1 (connect (shop 2 3))))
             (ann 2) (bike 3));
      [reflexivity|vm_compute; reflexivity ..|simpl; lia].
  - apply (proj1 (proj2 (proj2
             (book_item_validation t0 1 1 (connect (shop 1 0)))))
             (ann 1) (bike 0));
      [reflexivity|vm_compute; reflexivity ..|simpl; lia|simpl; lia].
  - apply (proj2 (proj2 (proj2 (book_item_validation t0 1 1 no_tables)))).
    by left.
  - apply (proj2 (proj2 (proj2
             (book_item_validation t0 (max_int64 + 1) 1 (connect (shop 0 3)))))).
    right. left. split; vm_compute; reflexivity.
Defined.

(** C2 does not hold for every id: a member id of 2^63, which names no row,
    is not answered with the 404; the lookup raises. *)
Lemma book_item_not_always_404 :
  ¬ (∀ utcnow mid iid d,
       members (disk d) !! mid = None ∨ inventory (disk d) !! iid = None →
       book_item utcnow mid iid d
       = (Error "Member or item not found" 404, d)).
Proof.
  intros H.
  specialize (H t0 9223372036854775808 1 (connect (shop 0 3))).
  assert (book_item t0 9223372036854775808 1 (connect (shop 0 3))
          = (Uncaught, connect (shop 0 3))) as Hraise
    by (vm_compute; reflexivity).
  rewrite Hraise in H. discriminate H. left. vm_compute. reflexivity.
Qed.

(** C3.  When the member and the item exist, [booking_count < 2] and
    [remaining_count > 0], [book_item] commits once, and the committed store
    is the old one with one Booking row more, under a key not in use, that
    links the member and the item, with the member's [booking_count] one
    higher and the item's [remaining_count] one lower; the response carries
    the key of the new row.  Whatever the request, the store is afterwards
    either the old one, with no commit, or that fully updated one: no store
    with only part of the three effects is ever committed. *)
Theorem book_item_effect utcnow mid iid s :
  (∀ m i,
     members s !! mid = Some m → inventory s !! iid = Some i →
     booking_count m < 2 → 0 < remaining_count i →
     ∃ bid, bookings s !! bid = None
       ∧ book_item utcnow mid iid (connect s)
         = (Message "Booking successful" (Some bid),
            mk_db (booked utcnow s mid iid m i bid) []
                  [booked utcnow s mid iid m i bid]))
  ∧ (let d' := snd (book_item utcnow mid iid (connect s)) in
     (disk d' = s ∧ commits d' = [])
     ∨ (∃ m i bid,
          members s !! mid = Some m ∧ inventory s !! iid = Some i
          ∧ bookings s !! bid = None
          ∧ disk d' = booked utcnow s mid iid m i bid
          ∧ commits d' = [disk d'])).
Proof.
  split.
  - intros m i Hm Hi Hbc Hrc. exists (next_id (bookings s)).
    split; [apply next_id_fresh|]. by apply book_item_ok.
  - destruct (book_item_disk_cases utcnow mid iid s)
      as [?|(m & i & Hm & Hi & _ & _ & Hd & Hc)]; [by left|].
    right. exists m, i, (next_id (bookings s)).
    by rewrite next_id_fresh.
Qed.

Lemma book_item_effect_witness :
  ∃ bid, bookings (shop 1 3) !! bid = None
    ∧ book_item t1 1 1 (connect (shop 1 3))
      = (Message "Booking successful" (Some bid),
         mk_db (booked t1 (shop 1 3) 1 1 (ann 1) (bike 3) bid) []
               [booked t1 (shop 1 3) 1 1 (ann 1) (bike 3) bid]).
Proof.
  apply (proj1 (book_item_effect t1 1 1 (shop 1 3)) (ann 1) (bike 3));
    [vm_compute; reflexivity ..|simpl; lia|simpl; lia].
Defined.

(** ** Cancelling a booking *)

Lemma cancel_booking_ok utcnow bid s b m i :
  bookings s !! bid = Some b →
  members s !! member_id b = Some m →
  inventory s !! inventory_id b = Some i →
  cancel_booking utcnow bid (connect s)
  = (Message "Booking cancelled successfully" None,
     mk_db (cancelled s bid b m i) [] [cancelled s bid b m i]).
Proof.
  intros Hb Hm Hi. unfold cancel_booking. simpl.
  rewrite (query_get_Some _ _ _ Hb), Hm, Hi.
  unfold session_commit, session_add, cancelled, mk_db. simpl.
  by rewrite (alter_Some _ _ _ _ Hm), (alter_Some _ _ _ _ Hi).
Qed.

Lemma cancel_booking_none utcnow bid s :
  bookings s !! bid = None →
  cancel_booking utcnow bid (connect s)
  = (if int64 bid then Error "Booking not found" 404 else Uncaught,
     connect s).
Proof.
  intros Hb. unfold cancel_booking, query_get. simpl. rewrite Hb.
  by destruct (int64 bid).
Qed.

(** Without a commit the committed store is the one the request found. *)
Lemma cancel_booking_cases utcnow bid s :
  let d' := snd (cancel_booking utcnow bid (connect s)) in
  (disk d' = s ∧ commits d' = [])
  ∨ (∃ b m i,
       bookings s !! bid = Some b ∧ members s !! member_id b = Some m
       ∧ inventory s !! inventory_id b = Some i
       ∧ disk d' = cancelled s bid b m i ∧ commits d' = [disk d']).
Proof.
  destruct (bookings s !! bid) as [b|] eqn:Hb.
  - destruct (members s !! member_id b) as [m|] eqn:Hm.
    + destruct (inventory s !! inventory_id b) as [i|] eqn:Hi.
      * right. exists b, m, i.
        by rewrite (cancel_booking_ok utcnow bid s b m i).
      * left. unfold cancel_booking. simpl.
        by rewrite (query_get_Some _ _ _ Hb), Hm, Hi.
    + left. unfold cancel_booking. simpl.
      by rewrite (query_get_Some _ _ _ Hb), Hm.
  - left. by rewrite cancel_booking_none.
Qed.

(** ** Creating, then cancelling *)

Lemma book_item_Message_inv utcnow mid iid d msg k d' :
  book_item utcnow mid iid d = (Message msg k, d') →
  ∃ m i, members (disk d) !! mid = Some m ∧ inventory (disk d) !! iid = Some i
         ∧ booking_count m < 2 ∧ 0 < remaining_count i.
Proof.
  intros Hok.
  destruct (tables d) eqn:Ht;
    [|unfold book_item in Hok; rewrite Ht in Hok; discriminate].
  pose proof (book_item_cases utcnow mid iid d Ht) as H.
  destruct (members (disk d) !! mid) as [m|];
    [|destruct (_ || _); congruence].
  destruct (inventory (disk d) !! iid) as [i|];
    [|destruct (_ || _); congruence].
  destruct (Z.leb_spec 2 (booking_count m)); [congruence|].
  destruct (Z.leb_spec (remaining_count i) 0); [congruence|].
  exists m, i. repeat split; done || lia.
Qed.

Lemma cancelled_booked utcnow s mid iid m i :
  members s !! mid = Some m →
  inventory s !! iid = Some i →
  let bid := next_id (bookings s) in
  cancelled (booked utcnow s mid iid m i bid) bid (mk_Booking utcnow mid iid)
    (with_booking_count (booking_count m + 1) m)
    (with_remaining_count (remaining_count i - 1) i)
  = s.
Proof.
  intros Hm Hi bid. unfold cancelled, booked. simpl.
  rewrite !insert_insert_eq.
  replace (booking_count m + 1 - 1) with (booking_count m) by lia.
  replace (remaining_count i - 1 + 1) with (remaining_count i) by lia.
  unfold with_booking_count at 1, with_remaining_count at 1. simpl.
  fold (with_booking_count (booking_count m) m).
  fold (with_remaining_count (remaining_count i) i).
  rewrite with_booking_count_same, with_remaining_count_same.
  rewrite (insert_id _ _ _ Hm), (insert_id _ _ _ Hi).
  rewrite delete_insert_id by apply next_id_fresh.
  by destruct s.
Qed.

(** C5.  If [book_item] for a member and an item succeeds on store [s] and
    returns booking [bid], then cancelling [bid] right away succeeds and
    leaves the store [s] itself: the member's [booking_count] and the item's
    [remaining_count] have their values from before the booking, and no
    Booking row [bid] exists. *)
Theorem book_then_cancel utcnow utcnow' mid iid s bid s1 :
  serve utcnow (ReqBook mid iid) s
  = (Message "Booking successful" (Some bid), s1) →
  ∃ s2,
    serve utcnow' (ReqCancel bid) s1
    = (Message "Booking cancelled successfully" None, s2)
    ∧ booking_count <$> members s2 !! mid = booking_count <$> members s !! mid
    ∧ remaining_count <$> inventory s2 !! iid
      = remaining_count <$> inventory s !! iid
    ∧ is_Some (bookings s1 !! bid)
    ∧ bookings s2 !! bid = None
    ∧ s2 = s.
Proof.
  unfold serve. simpl.
  destruct (book_item utcnow mid iid (connect s)) as [resp d] eqn:Hbook.
  intros [= -> <-].
  destruct (book_item_Message_inv _ _ _ _ _ _ _ Hbook)
    as (m & i & Hm & Hi & Hbc & Hrc). simpl in Hm, Hi.
  rewrite (book_item_ok utcnow mid iid s m i Hm Hi Hbc Hrc) in Hbook.
  injection Hbook as Hbid <-. subst bid. simpl.
  exists s.
  rewrite (cancel_booking_ok utcnow' _ _ (mk_Booking utcnow mid iid)
             (with_booking_count (booking_count m + 1) m)
             (with_remaining_count (remaining_count i - 1) i));
    simpl; try apply lookup_insert_eq.
  rewrite (cancelled_booked utcnow s mid iid m i Hm Hi).
  rewrite lookup_insert_eq, next_id_fresh. eauto 10.
Qed.

Lemma book_then_cancel_witness :
  ∃ s2,
    serve t1 (ReqCancel 1) (shop_booked 2 2)
    = (Message "Booking cancelled successfully" None, s2)
    ∧ booking_count <$> members s2 !! 1
      = booking_count <$> members (shop 1 3) !! 1
    ∧ remaining_count <$> inventory s2 !! 1
      = remaining_count <$> inventory (shop 1 3) !! 1
    ∧ is_Some (bookings (shop_booked 2 2) !! 1)
    ∧ bookings s2 !! 1 = None
    ∧ s2 = shop 1 3.
Proof.
  apply (book_then_cancel t0 t1 1 1 (shop 1 3) 1 (shop_booked 2 2)).
  vm_compute. reflexivity.
Defined.

(** ** What [book_item] does not check *)

(** C9.  [book_item] does not look at [expiration_date]: when the member and
    the item exist, [booking_count < 2] and [remaining_count > 0], the
    booking succeeds although the item's expiration date is before the time
    of the request; and the response is the same whatever expiration date the
    item's row carries. *)
Theorem book_item_ignores_expiration utcnow mid iid s m i :
  members s !! mid = Some m → inventory s !! iid = Some i →
  booking_count m < 2 → 0 < remaining_count i →
  (Datetime.ltb (expiration_date i) utcnow = true →
   ∃ bid s', serve utcnow (ReqBook mid iid) s
             = (Message "Booking successful" (Some bid), s')
             ∧ bookings s' !! bid = Some (mk_Booking utcnow mid iid))
  ∧ ∀ e,
      fst (serve utcnow (ReqBook mid iid)
             (mk_store (members s)
                       (<[iid := with_expiration_date e i]> (inventory s))
                       (bookings s)))
      = fst (serve utcnow (ReqBook mid iid) s).
Proof.
  intros Hm Hi Hbc Hrc. unfold serve. simpl.
  rewrite (book_item_ok utcnow mid iid s m i Hm Hi Hbc Hrc). split.
  - intros _. eexists _, _. split; [reflexivity|]. simpl.
    apply lookup_insert_eq.
  - intros e.
    by rewrite (book_item_ok utcnow mid iid _ m (with_expiration_date e i));
      simpl; try apply lookup_insert_eq.
Qed.

Lemma book_item_ignores_expiration_witness :
  Datetime.ltb (expiration_date (bike 3)) t1 = true
  ∧ ∃ bid s', serve t1 (ReqBook 1 1) (shop 0 3)
              = (Message "Booking successful" (Some bid), s')
              ∧ bookings s' !! bid = Some (mk_Booking t1 1 1).
Proof.
  split; [vm_compute; reflexivity|].
  apply (book_item_ignores_expiration t1 1 1 (shop 0 3) (ann 0) (bike 3));
    [vm_compute; reflexivity ..|simpl; lia|simpl; lia|vm_compute; reflexivity].
Defined.

(** C10.  [book_item] does not ask whether the member already holds a booking
    of the item: for a member with [booking_count <= 0] and an item with
    [remaining_count >= 2], two requests in a row for the same member and
    item both succeed, and afterwards two Booking rows with different keys
    link that member to that item. *)
Theorem book_item_twice utcnow utcnow' mid iid s m i :
  members s !! mid = Some m → inventory s !! iid = Some i →
  booking_count m ≤ 0 → 2 ≤ remaining_count i →
  ∃ bid1 bid2 s1 s2,
    serve utcnow (ReqBook mid iid) s
    = (Message "Booking successful" (Some bid1), s1)
    ∧ serve utcnow' (ReqBook mid iid) s1
      = (Message "Booking successful" (Some bid2), s2)
    ∧ bid1 ≠ bid2
    ∧ bookings s2 !! bid1 = Some (mk_Booking utcnow mid iid)
    ∧ bookings s2 !! bid2 = Some (mk_Booking utcnow' mid iid).
Proof.
  intros Hm Hi Hbc Hrc.
  set (bid1 := next_id (bookings s)).
  set (s1 := booked utcnow s mid iid m i bid1).
  set (m1 := with_booking_count (booking_count m + 1) m).
  set (i1 := with_remaining_count (remaining_count i - 1) i).
  assert (bookings s1 !! bid1 = Some (mk_Booking utcnow mid iid)) as Hb1
    by apply lookup_insert_eq.
  pose proof (next_id_above _ _ _ Hb1) as Hlt.
  exists bid1, (next_id (bookings s1)), s1,
    (booked utcnow' s1 mid iid m1 i1 (next_id (bookings s1))).
  split; [apply serve_book_ok; done || lia|].
  split; [apply serve_book_ok; simpl; try apply lookup_insert_eq; lia|].
  split; [lia|]. split; (unfold booked at 1; cbn [bookings]).
  - by rewrite lookup_insert_ne by lia.
  - apply lookup_insert_eq.
Qed.

Lemma book_item_twice_witness :
  ∃ bid1 bid2 s1 s2,
    serve t0 (ReqBook 1 1) (shop 0 2)
    = (Message "Booking successful" (Some bid1), s1)
    ∧ serve t1 (ReqBook 1 1) s1
      = (Message "Booking successful" (Some bid2), s2)
    ∧ bid1 ≠ bid2
    ∧ bookings s2 !! bid1 = Some (mk_Booking t0 1 1)
    ∧ bookings s2 !! bid2 = Some (mk_Booking t1 1 1).
Proof.
  apply (book_item_twice t0 t1 1 1 (shop 0 2) (ann 0) (bike 2));
    [vm_compute; reflexivity ..|simpl; lia|simpl; lia].
Defined.

(** ** Trimming *)

Lemma lstrip_spec s :
  ∃ l, s = String.append l (Py.lstrip s) ∧ Py.all_space l = true
       ∧ ∀ c, Py.first_char (Py.lstrip s) = Some c → Py.is_space c = false.
Proof.
  induction s as [|c s (l & Hs & Hl & Hfirst)]; simpl.
  - exists EmptyString. by repeat split.
  - destruct (Py.is_space c) eqn:Hc.
    + exists (String c l). split; [by rewrite Hs at 1|].
      simpl. by rewrite Hc, Hl.
    + exists EmptyString. repeat split. simpl. congruence.
Qed.

Lemma rstrip_spec s :
  ∃ r, s = String.append (Py.rstrip s) r ∧ Py.all_space r = true
       ∧ ∀ c, Py.last_char (Py.rstrip s) = Some c → Py.is_space c = false.
Proof.
  induction s as [|c s (r & Hs & Hr & Hlast)]; simpl.
  - exists EmptyString. by repeat split.
  - destruct (Py.rstrip s) as [|c' t] eqn:Ht.
    + change (s = r) in Hs. subst r. destruct (Py.is_space c) eqn:Hc.
      * exists (String c s). simpl. rewrite Hc, Hr. by repeat split.
      * exists s. repeat split; [done|]. simpl. congruence.
    + exists r. split; [by rewrite Hs at 1|]. by split.
Qed.

Lemma rstrip_first s c :
  Py.first_char (Py.rstrip s) = Some c → Py.first_char s = Some c.
Proof.
  destruct s as [|c0 s]; simpl; [done|].
  destruct (Py.rstrip s); [|done]. by destruct (Py.is_space c0).
Qed.

Lemma strip_spec v : trimmed_of v (Py.strip v).
Proof.
  unfold trimmed_of, Py.strip.
  destruct (lstrip_spec v) as (l & Hv & Hl & Hfirst).
  destruct (rstrip_spec (Py.lstrip v)) as (r & Hs & Hr & Hlast).
  split; [|split].
  - exists l, r. by rewrite <- Hs.
  - intros c Hc. by apply Hfirst, rstrip_first.
  - done.
Qed.

(** ** The fields of an import row *)

Lemma safe_int_parsed v n : Py.int (Py.strip v) = Some n → safe_int (Some v) = n.
Proof.
  intros Hn. unfold safe_int.
  destruct v as [|c v]; [discriminate|]. cbn [Py.truthy andb].
  destruct (Py.strip (String c v)) eqn:E; [discriminate|].
  cbn [Py.truthy]. by rewrite Hn.
Qed.

Lemma safe_int_default v : Py.int (Py.strip v) = None → safe_int (Some v) = 0.
Proof.
  intros Hn. unfold safe_int. rewrite Hn.
  by destruct (Py.truthy v && Py.truthy (Py.strip v)).
Qed.

(** C8.  In every import row the text fields are [safe_text] of the column:
    the trimmed text, and the empty string when the column is missing or
    empty.  The integer fields are [safe_int] of the column: the integer the
    trimmed text denotes, and 0 when the column is missing, empty, blank or
    not an integer.  Neither raises, so they never make the row fail: a
    member or inventory row gives a record exactly when its date parses, and
    the record holds those field values. *)
Theorem safe_fields :
  (safe_text None = "" ∧ safe_text (Some "") = ""
   ∧ (∀ v, safe_text (Some v) = Py.strip v)
   ∧ (∀ v, trimmed_of v (safe_text (Some v))))
  ∧ (safe_int None = 0 ∧ safe_int (Some "") = 0
     ∧ (∀ v, Py.strip v = "" → safe_int (Some v) = 0)
     ∧ (∀ v, Py.int (Py.strip v) = None → safe_int (Some v) = 0)
     ∧ (∀ v n, Py.int (Py.strip v) = Some n → safe_int (Some v) = n))
  ∧ (∀ row,
       member_of_row row
       = (λ t, mk_Member (safe_text (row_get row "name"))
                         (safe_text (row_get row "surname"))
                         (safe_int (row_get row "booking_count")) t)
         <$> parse_date (row_get row "date_joined"))
  ∧ (∀ row,
       inventory_of_row row
       = (λ t, mk_Inventory (safe_text (row_get row "title"))
                            (safe_text (row_get row "description"))
                            (safe_int (row_get row "remaining_count")) t)
         <$> parse_date (row_get row "expiration_date")).
Proof.
  assert (∀ v, safe_text (Some v) = Py.strip v) as Htext
    by (intros v; by destruct v).
  split; [|split; [|split]]; [| |reflexivity..].
  - do 2 (split; [reflexivity|]). split; [exact Htext|].
    intros v. rewrite Htext. apply strip_spec.
  - do 2 (split; [reflexivity|]). split; [|split].
    + intros v Hv. apply safe_int_default. by rewrite Hv.
    + apply safe_int_default.
    + apply safe_int_parsed.
Qed.

Lemma safe_fields_witness :
  safe_int (Some "   ") = 0 ∧ safe_int (Some "two") = 0
  ∧ safe_int (Some " 3 ") = 3.
Proof.
  destruct safe_fields as (_ & (_ & _ & Hblank & Hbad & Hint) & _).
  split; [|split].
  - apply Hblank. vm_compute. reflexivity.
  - apply Hbad. vm_compute. reflexivity.
  - apply Hint. vm_compute. reflexivity.
Defined.

(** ** Parsing dates *)

Lemma try_formats_Some date_str fmts t :
  try_formats date_str fmts = Some t ↔
  ∃ k fmt, fmts !! k = Some fmt
    ∧ Datetime.strptime date_str fmt = Some t
    ∧ ∀ j fmt', (j < k)%nat → fmts !! j = Some fmt' →
                Datetime.strptime date_str fmt' = None.
Proof.
  induction fmts as [|f fmts IH]; simpl.
  - split; [done|]. by intros (k & fmt & Hk & _).
  - destruct (Datetime.strptime date_str f) as [t'|] eqn:Hf.
    + split.
      * intros [= ->]. exists 0%nat, f. repeat split; [done|]. lia.
      * intros (k & fmt & Hk & Ht & Hbefore). destruct k as [|k].
        -- simpl in Hk. congruence.
        -- specialize (Hbefore 0%nat f). simpl in Hbefore.
           rewrite Hbefore in Hf; [done|lia|done].
    + rewrite IH. split.
      * intros (k & fmt & Hk & Ht & Hbefore). exists (S k), fmt.
        repeat split; [done..|].
        intros [|j] fmt' Hj Hfmt'; simpl in Hfmt'; [congruence|].
        apply (Hbefore j); [lia|done].
      * intros (k & fmt & Hk & Ht & Hbefore). destruct k as [|k].
        -- simpl in Hk. congruence.
        -- exists k, fmt. repeat split; [done..|].
           intros j fmt' Hj Hfmt'. apply (Hbefore (S j)); [lia|done].
Qed.

Lemma try_formats_None date_str fmts :
  try_formats date_str fmts = None ↔
  Forall (λ fmt, Datetime.strptime date_str fmt = None) fmts.
Proof.
  induction fmts as [|f fmts IH]; simpl.
  - split; [constructor|done].
  - destruct (Datetime.strptime date_str f) eqn:Hf.
    + split; [done|]. intros H. apply Forall_cons in H as [H _]. congruence.
    + rewrite IH. split.
      * intros H. by constructor.
      * intros H. by apply Forall_cons in H as [_ H].
Qed.

Lemma import_members_app rows1 rows2 d :
  import_members (rows1 ++ rows2) d
  = import_members rows2 (import_members rows1 d).
Proof.
  revert d. induction rows1 as [|row rows1 IH]; intros d; simpl; [done|].
  destruct (member_of_row row); apply IH.
Qed.

Lemma import_inventory_app rows1 rows2 d :
  import_inventory (rows1 ++ rows2) d
  = import_inventory rows2 (import_inventory rows1 d).
Proof.
  revert d. induction rows1 as [|row rows1 IH]; intros d; simpl; [done|].
  destruct (inventory_of_row row); apply IH.
Qed.

Lemma member_of_row_None row :
  parse_date (row_get row "date_joined") = None → member_of_row row = None.
Proof. intros H. unfold member_of_row. by rewrite H. Qed.

Lemma inventory_of_row_None row :
  parse_date (row_get row "expiration_date") = None →
  inventory_of_row row = None.
Proof. intros H. unfold inventory_of_row. by rewrite H. Qed.

(** C6.  [parse_date] trims its input and tries the six formats
    [%Y-%m-%dT%H:%M:%S], [%d/%m/%Y], [%d-%m-%Y], [%Y-%m-%d], [%d/%m/%y],
    [%d-%m-%y] in this order on the trimmed text; its result is that of the
    first format that parses.  When no format parses, as for [31/02/2024],
    which has the shape of a format and names no calendar day, the row
    fails: the import goes on with the next row and ends as if the row were
    not in the file, so the row leaves no record in the store. *)
Theorem parse_date_formats :
  map Datetime.compile formats
  = [ Some [Dir dY; Lit "-"; Dir dm; Lit "-"; Dir dd; Lit "T";
            Dir dH; Lit ":"; Dir dM; Lit ":"; Dir dS];
      Some [Dir dd; Lit "/"; Dir dm; Lit "/"; Dir dY];
      Some [Dir dd; Lit "-"; Dir dm; Lit "-"; Dir dY];
      Some [Dir dY; Lit "-"; Dir dm; Lit "-"; Dir dd];
      Some [Dir dd; Lit "/"; Dir dm; Lit "/"; Dir dy];
      Some [Dir dd; Lit "-"; Dir dm; Lit "-"; Dir dy] ]
  ∧ (∀ v, trimmed_of (Py.str v) (Py.strip (Py.str v)))
  ∧ (∀ v t,
       parse_date v = Some t ↔
       ∃ k fmt, formats !! k = Some fmt
         ∧ Datetime.strptime (Py.strip (Py.str v)) fmt = Some t
         ∧ ∀ j fmt', (j < k)%nat → formats !! j = Some fmt' →
                     Datetime.strptime (Py.strip (Py.str v)) fmt' = None)
  ∧ (∀ v,
       parse_date v = None ↔
       Forall (λ fmt, Datetime.strptime (Py.strip (Py.str v)) fmt = None)
              formats)
  ∧ parse_date (Some "31/02/2024") = None
  ∧ (∀ utcnow before row after e inventory_csv s,
       parse_date (row_get row "date_joined") = None →
       serve utcnow
         (ReqImport (readable (before ++ row :: after) e) inventory_csv) s
       = serve utcnow
           (ReqImport (readable (before ++ after) e) inventory_csv) s)
  ∧ (∀ utcnow member_csv before row after e s,
       parse_date (row_get row "expiration_date") = None →
       serve utcnow
         (ReqImport member_csv (readable (before ++ row :: after) e)) s
       = serve utcnow
           (ReqImport member_csv (readable (before ++ after) e)) s).
Proof.
  split; [reflexivity|].
  split; [intros v; apply strip_spec|].
  split; [intros v t; apply try_formats_Some|].
  split; [intros v; apply try_formats_None|].
  split; [vm_compute; reflexivity|].
  split.
  - intros utcnow before row after e inv s Hrow.
    unfold serve, handle, import_data.
    rewrite !import_members_app. simpl.
    by rewrite (member_of_row_None row Hrow).
  - intros utcnow mem before row after e s Hrow.
    unfold serve, handle, import_data.
    destruct mem as [|rows [|detail]]; [done| |done].
    rewrite !import_inventory_app. simpl.
    by rewrite (inventory_of_row_None row Hrow).
Qed.

Lemma parse_date_formats_witness :
  parse_date (row_get row_bob "date_joined") = None
  ∧ serve t0 (ReqImport (readable ([row_ann] ++ row_bob :: [row_ann]) end_of_file)
                        (readable [row_bike] end_of_file)) empty_store
    = serve t0 (ReqImport (readable ([row_ann] ++ [row_ann]) end_of_file)
                          (readable [row_bike] end_of_file)) empty_store
  ∧ parse_date (row_get row_kite "expiration_date") = None
  ∧ serve t0 (ReqImport (readable [row_ann] end_of_file)
                        (readable ([] ++ row_kite :: [row_bike]) end_of_file))
          empty_store
    = serve t0 (ReqImport (readable [row_ann] end_of_file)
                          (readable ([] ++ [row_bike]) end_of_file)) empty_store.
Proof.
  destruct parse_date_formats as (_ & _ & _ & _ & _ & Hmember & Hitem).
  split; [vm_compute; reflexivity|].
  split; [apply Hmember; vm_compute; reflexivity|].
  split; [vm_compute; reflexivity|].
  apply Hitem. vm_compute. reflexivity.
Defined.

(** ** Importing *)

Lemma import_members_session rows d :
  import_members rows d
  = mk_database (tables d) (disk d)
      (session d ++ (add_member <$> omap member_of_row rows)) (commits d).
Proof.
  revert d. induction rows as [|row rows IH]; intros d; simpl.
  - rewrite app_nil_r. by destruct d.
  - destruct (member_of_row row) as [m|]; rewrite IH; [|done].
    simpl. by rewrite <- app_assoc.
Qed.

Lemma import_inventory_session rows d :
  import_inventory rows d
  = mk_database (tables d) (disk d)
      (session d ++ (add_inventory <$> omap inventory_of_row rows)) (commits d).
Proof.
  revert d. induction rows as [|row rows IH]; intros d; simpl.
  - rewrite app_nil_r. by destruct d.
  - destruct (inventory_of_row row) as [i|]; rewrite IH; [|done].
    simpl. by rewrite <- app_assoc.
Qed.

Lemma flush_app utcnow s ps qs :
  (flush utcnow s (ps ++ qs)).1 = (flush utcnow (flush utcnow s ps).1 qs).1.
Proof.
  revert s. induction ps as [|p ps IH]; intros s; simpl; [done|].
  destruct (flush_one utcnow s p) as [s1 k].
  specialize (IH s1).
  destruct (flush utcnow s1 (ps ++ qs)) as [s2 ks].
  destruct (flush utcnow s1 ps) as [s3 ks']. done.
Qed.

Lemma flush_add_members utcnow s ms :
  (flush utcnow s (add_member <$> ms)).1
  = mk_store (add_all (members s) ms) (inventory s) (bookings s).
Proof.
  revert s. induction ms as [|m ms IH]; intros s; simpl; [by destruct s|].
  specialize (IH (mk_store (<[next_id (members s) := m]> (members s))
                           (inventory s) (bookings s))).
  destruct (flush utcnow _ _) as [s2 ks]. done.
Qed.

Lemma flush_add_inventory utcnow s items :
  (flush utcnow s (add_inventory <$> items)).1
  = mk_store (members s) (add_all (inventory s) items) (bookings s).
Proof.
  revert s. induction items as [|i items IH]; intros s; simpl; [by destruct s|].
  specialize (IH (mk_store (members s)
                           (<[next_id (inventory s) := i]> (inventory s))
                           (bookings s))).
  destruct (flush utcnow _ _) as [s2 ks]. done.
Qed.

Lemma writable_adds ms items :
  forallb writable ((add_member <$> ms) ++ (add_inventory <$> items))
  = fits ms items.
Proof.
  unfold fits. rewrite forallb_app. f_equal.
  - induction ms as [|m ms IH]; simpl; [done|]. f_equal. exact IH.
  - induction items as [|i items IH]; simpl; [done|]. f_equal. exact IH.
Qed.

Lemma import_data_ok utcnow rows rows' s :
  fits (omap member_of_row rows) (omap inventory_of_row rows') = true →
  import_data utcnow (readable rows end_of_file) (readable rows' end_of_file)
    (connect s)
  = (Message "Data imported successfully" None,
     let s' := imported s (omap member_of_row rows)
                          (omap inventory_of_row rows') in
     mk_db s' [] [s']).
Proof.
  intros Hfits. unfold import_data, session_commit.
  rewrite import_inventory_session, import_members_session. simpl.
  rewrite writable_adds, Hfits.
  pose proof (flush_app utcnow s (add_member <$> omap member_of_row rows)
                (add_inventory <$> omap inventory_of_row rows')) as H.
  rewrite flush_add_members, flush_add_inventory in H. simpl in H.
  destruct (flush utcnow s _) as [s' ks]. simpl in H. by subst s'.
Qed.

Lemma import_data_overflow utcnow rows rows' s :
  fits (omap member_of_row rows) (omap inventory_of_row rows') = false →
  import_data utcnow (readable rows end_of_file) (readable rows' end_of_file)
    (connect s)
  = (Error ("Import failed: " ++ overflow_message) 500, mk_db s [] []).
Proof.
  intros Hfits. unfold import_data, session_commit.
  rewrite import_inventory_session, import_members_session. simpl.
  by rewrite writable_adds, Hfits.
Qed.

(** The committed store after [import_data], in every case. *)
Lemma import_data_cases utcnow member_csv inventory_csv s :
  let d' := snd (import_data utcnow member_csv inventory_csv (connect s)) in
  (disk d' = s ∧ commits d' = [])
  ∨ (∃ rows rows',
       member_csv = readable rows end_of_file
       ∧ inventory_csv = readable rows' end_of_file
       ∧ disk d' = imported s (omap member_of_row rows)
                              (omap inventory_of_row rows')
       ∧ commits d' = [disk d']
       ∧ fits (omap member_of_row rows) (omap inventory_of_row rows') = true).
Proof.
  destruct member_csv as [|rows [|detail]].
  - by left.
  - destruct inventory_csv as [|rows' [|detail]].
    + left. unfold import_data. by rewrite import_members_session.
    + destruct (fits (omap member_of_row rows) (omap inventory_of_row rows'))
        eqn:Hfits.
      * right. exists rows, rows'. by rewrite import_data_ok.
      * left. by rewrite import_data_overflow.
    + left. unfold import_data.
      by rewrite import_inventory_session, import_members_session.
  - left. unfold import_data. by rewrite import_members_session.
Qed.

(** C7.  When [member.csv] is missing [import_data] answers 404
    "member.csv not found", and when [inventory.csv] is missing, 404
    "inventory.csv not found"; in both cases no row is committed: the
    committed store is the one the request found, with its tables created
    if they were not.  When both files are read to their end and the
    counters read fit in 64 bits, the import answers "Data imported
    successfully" and commits once, and the snapshot committed holds the
    records of both files; when a counter does not fit, the commit
    raises, the import answers 500 "Import failed: ..." and nothing is
    stored.  In every case the import ends with no commit and the store
    unchanged, or with that single commit: no store holding the records of
    only one file is ever committed. *)
Theorem import_data_commit utcnow :
  (∀ inventory_csv d,
     import_data utcnow file_not_found inventory_csv d
     = (Error "member.csv not found" 404, create_all d))
  ∧ (∀ rows d,
       ∃ d', import_data utcnow (readable rows end_of_file) file_not_found d
             = (Error "inventory.csv not found" 404, d')
             ∧ disk d' = disk d ∧ commits d' = commits d)
  ∧ (∀ rows rows' s,
       fits (omap member_of_row rows) (omap inventory_of_row rows') = true →
       let s' := imported s (omap member_of_row rows)
                            (omap inventory_of_row rows') in
       import_data utcnow (readable rows end_of_file)
         (readable rows' end_of_file) (connect s)
       = (Message "Data imported successfully" None, mk_db s' [] [s']))
  ∧ (∀ rows rows' s,
       fits (omap member_of_row rows) (omap inventory_of_row rows') = false →
       ∃ detail,
         import_data utcnow (readable rows end_of_file)
           (readable rows' end_of_file) (connect s)
         = (Error ("Import failed: " ++ detail) 500, mk_db s [] []))
  ∧ (∀ member_csv inventory_csv s,
       let d' := snd (import_data utcnow member_csv inventory_csv (connect s)) in
       (disk d' = s ∧ commits d' = [])
       ∨ (∃ rows rows',
            member_csv = readable rows end_of_file
            ∧ inventory_csv = readable rows' end_of_file
            ∧ disk d' = imported s (omap member_of_row rows)
                                   (omap inventory_of_row rows')
            ∧ commits d' = [disk d'])).
Proof.
  split; [done|]. split; [|split; [|split]].
  - intros rows d. eexists. split; [reflexivity|].
    by rewrite import_members_session.
  - intros rows rows' s Hfits. by apply import_data_ok.
  - intros rows rows' s Hfits. eexists. by apply import_data_overflow.
  - intros member_csv inventory_csv s.
    destruct (import_data_cases utcnow member_csv inventory_csv s)
      as [?|(rows & rows' & ? & ? & ? & ? & _)]; [by left|].
    right. by exists rows, rows'.
Qed.

Lemma import_data_commit_witness :
  import_data t1 (readable [row_ann; row_bob] end_of_file)
    (readable [row_bike] end_of_file) (connect (shop 1 2))
  = (Message "Data imported successfully" None,
     mk_db (imported (shop 1 2) (omap member_of_row [row_ann; row_bob])
                     (omap inventory_of_row [row_bike])) []
           [imported (shop 1 2) (omap member_of_row [row_ann; row_bob])
                     (omap inventory_of_row [row_bike])])
  ∧ ∃ detail,
      import_data t1 (readable [row_ann; row_max] end_of_file)
        (readable [row_bike] end_of_file) (connect (shop 1 2))
      = (Error ("Import failed: " ++ detail) 500, mk_db (shop 1 2) [] []).
Proof.
  split.
  - apply (proj1 (proj2 (proj2 (import_data_commit t1)))).
    vm_compute. reflexivity.
  - apply (proj1 (proj2 (proj2 (proj2 (import_data_commit t1))))).
    vm_compute. reflexivity.
Defined.

(** ** Counting the Booking rows *)

Section counting.
Context (P : Z * Booking → Prop) `{!∀ kb, Decision (P kb)}.

Lemma size_filter_insert (t : gmap Z Booking) k b :
  t !! k = None →
  size (filter P (<[k := b]> t))
  = if decide (P (k, b)) then S (size (filter P t)) else size (filter P t).
Proof.
  intros Hk. rewrite map_filter_insert. case_decide.
  - apply map_size_insert_None, map_lookup_filter_None. by left.
  - by rewrite delete_id.
Qed.

Lemma size_filter_delete (t : gmap Z Booking) k b :
  t !! k = Some b →
  size (filter P t)
  = if decide (P (k, b)) then S (size (filter P (delete k t)))
    else size (filter P (delete k t)).
Proof.
  intros Hk. rewrite <- (insert_delete_id t k b Hk) at 1.
  apply size_filter_insert, lookup_delete_eq.
Qed.

Lemma size_filter_none (t : gmap Z Booking) :
  (∀ k b, t !! k = Some b → ¬ P (k, b)) → size (filter P t) = 0%nat.
Proof.
  intros Hnone. apply map_size_empty_iff, map_empty. intros k.
  apply map_lookup_filter_None. right. intros b Hb. by apply Hnone.
Qed.
End counting.

Lemma member_bookings_booked utcnow s mid iid m i bid id :
  bookings s !! bid = None →
  member_bookings (booked utcnow s mid iid m i bid) id
  = if decide (mid = id) then S (member_bookings s id)
    else member_bookings s id.
Proof.
  intros Hb. unfold member_bookings, booked. cbn [bookings].
  by rewrite size_filter_insert.
Qed.

Lemma item_bookings_booked utcnow s mid iid m i bid id :
  bookings s !! bid = None →
  item_bookings (booked utcnow s mid iid m i bid) id
  = if decide (iid = id) then S (item_bookings s id) else item_bookings s id.
Proof.
  intros Hb. unfold item_bookings, booked. cbn [bookings].
  by rewrite size_filter_insert.
Qed.

Lemma member_bookings_cancelled s bid b m i id :
  bookings s !! bid = Some b →
  member_bookings s id
  = if decide (member_id b = id) then S (member_bookings (cancelled s bid b m i) id)
    else member_bookings (cancelled s bid b m i) id.
Proof.
  intros Hb. unfold member_bookings, cancelled. cbn [bookings].
  by rewrite (size_filter_delete _ _ bid b Hb).
Qed.

Lemma item_bookings_cancelled s bid b m i id :
  bookings s !! bid = Some b →
  item_bookings s id
  = if decide (inventory_id b = id)
    then S (item_bookings (cancelled s bid b m i) id)
    else item_bookings (cancelled s bid b m i) id.
Proof.
  intros Hb. unfold item_bookings, cancelled. cbn [bookings].
  by rewrite (size_filter_delete _ _ bid b Hb).
Qed.

(** ** Rows added under fresh keys *)

Lemma add_all_old {A} (t : gmap Z A) l k x :
  t !! k = Some x → add_all t l !! k = Some x.
Proof.
  revert t. induction l as [|a l IH]; intros t Hk; [done|].
  apply IH. rewrite lookup_insert_ne; [done|].
  intros <-. by rewrite next_id_fresh in Hk.
Qed.

Lemma add_all_new {A} (t : gmap Z A) l k x :
  add_all t l !! k = Some x → t !! k = Some x ∨ (t !! k = None ∧ x ∈ l).
Proof.
  revert t. induction l as [|a l IH]; intros t Hk; [by left|].
  apply IH in Hk as [Hk|[Hk Hx]].
  - destruct (decide (next_id t = k)) as [<-|Hne].
    + rewrite lookup_insert_eq in Hk. injection Hk as ->.
      right. split; [apply next_id_fresh|apply list_elem_of_here].
    + rewrite lookup_insert_ne in Hk by done. by left.
  - right. split; [|by apply list_elem_of_further].
    destruct (decide (next_id t = k)) as [<-|Hne].
    + apply next_id_fresh.
    + by rewrite lookup_insert_ne in Hk.
Qed.

(** ** The requests as transitions *)

Lemma step_disk utcnow r s :
  step utcnow r s = disk (snd (handle utcnow r (connect s))).
Proof. unfold step, serve. by destruct (handle utcnow r (connect s)). Qed.

(** A request leaves the store as it is, or books, or cancels, or imports. *)
Lemma step_cases utcnow r s :
  step utcnow r s = s
  ∨ (∃ mid iid m i,
       r = ReqBook mid iid
       ∧ members s !! mid = Some m ∧ inventory s !! iid = Some i
       ∧ booking_count m < 2 ∧ 0 < remaining_count i
       ∧ step utcnow r s = booked utcnow s mid iid m i (next_id (bookings s)))
  ∨ (∃ bid b m i,
       r = ReqCancel bid
       ∧ bookings s !! bid = Some b ∧ members s !! member_id b = Some m
       ∧ inventory s !! inventory_id b = Some i
       ∧ step utcnow r s = cancelled s bid b m i)
  ∨ (∃ rows rows',
       r = ReqImport (readable rows end_of_file) (readable rows' end_of_file)
       ∧ step utcnow r s = imported s (omap member_of_row rows)
                                      (omap inventory_of_row rows')).
Proof.
  rewrite step_disk. destruct r as [member_csv inventory_csv|mid iid|bid]; simpl.
  - destruct (import_data_cases utcnow member_csv inventory_csv s)
      as [[? _]|(rows & rows' & -> & -> & Hd & _)]; [by left|].
    do 3 right. by exists rows, rows'.
  - destruct (book_item_disk_cases utcnow mid iid s)
      as [[? _]|(m & i & Hm & Hi & Hbc & Hrc & Hd & _)]; [by left|].
    right. left. by exists mid, iid, m, i.
  - destruct (cancel_booking_cases utcnow bid s)
      as [[? _]|(b & m & i & Hb & Hm & Hi & Hd & _)]; [by left|].
    do 2 right. left. by exists bid, b, m, i.
Qed.

(** Before the tables exist the store is empty, and a request leaves the
    store that it leaves with the tables created and empty: a booking and a
    cancellation raise where they would answer 404, and an import creates
    the tables first. *)
Lemma handle_no_tables utcnow r :
  disk (snd (handle utcnow r no_tables)) = step utcnow r empty_store.
Proof.
  rewrite step_disk.
  destruct r as [member_csv inventory_csv|mid iid|bid]; [done|..].
  - unfold handle.
    destruct (book_item_disk_cases utcnow mid iid empty_store)
      as [[-> _]|(m & i & Hm & _)]; [done|].
    simpl in Hm. by rewrite lookup_empty in Hm.
  - unfold handle.
    destruct (cancel_booking_cases utcnow bid empty_store)
      as [[-> _]|(b & m & i & Hb & _)]; [done|].
    simpl in Hb. by rewrite lookup_empty in Hb.
Qed.

(** ** Referential integrity *)

Lemma is_Some_insert {A} (t : gmap Z A) k x j :
  is_Some (t !! j) → is_Some (<[k := x]> t !! j).
Proof.
  intros H. destruct (decide (k = j)) as [->|Hne].
  - rewrite lookup_insert_eq. eauto.
  - by rewrite lookup_insert_ne.
Qed.

Lemma is_Some_add_all {A} (t : gmap Z A) l j :
  is_Some (t !! j) → is_Some (add_all t l !! j).
Proof. intros [x Hx]. exists x. by apply add_all_old. Qed.

Lemma step_linked utcnow r s : linked s → linked (step utcnow r s).
Proof.
  intros Hlink.
  destruct (step_cases utcnow r s)
    as [->|[(mid & iid & m & i & _ & Hm & Hi & _ & _ & ->)
           |[(bid & b & m & i & _ & Hb & Hm & Hi & ->)
            |(rows & rows' & _ & ->)]]]; [done|..];
    intros bid' b' Hb'; unfold booked, cancelled, imported in *;
    cbn [members inventory bookings] in *.
  - destruct (decide (next_id (bookings s) = bid')) as [<-|Hne].
    + rewrite lookup_insert_eq in Hb'. injection Hb' as <-. simpl.
      rewrite !lookup_insert_eq. eauto.
    + rewrite lookup_insert_ne in Hb' by done.
      destruct (Hlink bid' b' Hb'). split; by apply is_Some_insert.
  - apply lookup_delete_Some in Hb' as [_ Hb'].
    destruct (Hlink bid' b' Hb'). split; by apply is_Some_insert.
  - destruct (Hlink bid' b' Hb'). split; by apply is_Some_add_all.
Qed.

(** Whatever is imported, every Booking row of a reachable store references
    a member and an item that exist. *)
Lemma reachable_linked s : reachable s → linked s.
Proof.
  induction 1 as [|utcnow r s _ _ IH].
  - intros k x Hk. simpl in Hk. by rewrite lookup_empty in Hk.
  - by apply step_linked.
Qed.

(** One request changes a Member row at most in its counter, by the
    change in the number of Booking rows that reference the member, and
    never above 2 unless it was there. *)
Lemma member_step utcnow r s id m :
  members s !! id = Some m →
  ∃ m', members (step utcnow r s) !! id = Some m'
        ∧ name m' = name m ∧ surname m' = surname m
        ∧ date_joined m' = date_joined m
        ∧ surplus (step utcnow r s) id m' = surplus s id m
        ∧ booking_count m' ≤ Z.max (booking_count m) 2.
Proof.
  intros Hid. unfold surplus.
  destruct (step_cases utcnow r s)
    as [->|[(mid & iid & m0 & i & _ & Hm & Hi & Hbc & _ & ->)
           |[(bid & b & m0 & i & _ & Hb & Hm & Hi & ->)
            |(rows & rows' & _ & ->)]]].
  - exists m. repeat split; done || lia.
  - rewrite member_bookings_booked by apply next_id_fresh.
    unfold booked. cbn [members].
    destruct (decide (mid = id)) as [->|Hne].
    + rewrite lookup_insert_eq. eexists. split; [done|].
      assert (m0 = m) as -> by congruence. simpl. repeat split; done || lia.
    + rewrite lookup_insert_ne by done. exists m. repeat split; done || lia.
  - rewrite (member_bookings_cancelled s bid b m0 i id Hb).
    unfold cancelled at 1. cbn [members].
    destruct (decide (member_id b = id)) as [Heq|Hne].
    + rewrite Heq, lookup_insert_eq. eexists. split; [done|].
      rewrite Heq in Hm. replace m0 with m by congruence.
      simpl. repeat split; done || lia.
    + rewrite lookup_insert_ne by done. exists m. repeat split; done || lia.
  - exists m. split; [by apply add_all_old|]. repeat split; done || lia.
Qed.

Lemma item_step utcnow r s id i :
  inventory s !! id = Some i →
  ∃ i', inventory (step utcnow r s) !! id = Some i'
        ∧ title i' = title i ∧ description i' = description i
        ∧ expiration_date i' = expiration_date i
        ∧ stock (step utcnow r s) id i' = stock s id i
        ∧ Z.min (remaining_count i) 0 ≤ remaining_count i'.
Proof.
  intros Hid. unfold stock.
  destruct (step_cases utcnow r s)
    as [->|[(mid & iid & m & i0 & _ & Hm & Hi & _ & Hrc & ->)
           |[(bid & b & m & i0 & _ & Hb & Hm & Hi & ->)
            |(rows & rows' & _ & ->)]]].
  - exists i. repeat split; done || lia.
  - rewrite item_bookings_booked by apply next_id_fresh.
    unfold booked. cbn [inventory].
    destruct (decide (iid = id)) as [->|Hne].
    + rewrite lookup_insert_eq. eexists. split; [done|].
      replace i0 with i in * by congruence. simpl. repeat split; done || lia.
    + rewrite lookup_insert_ne by done. exists i. repeat split; done || lia.
  - rewrite (item_bookings_cancelled s bid b m i0 id Hb).
    unfold cancelled at 1. cbn [inventory].
    destruct (decide (inventory_id b = id)) as [Heq|Hne].
    + rewrite Heq, lookup_insert_eq. eexists. split; [done|].
      rewrite Heq in Hi. replace i0 with i by congruence.
      simpl. repeat split; done || lia.
    + rewrite lookup_insert_ne by done. exists i. repeat split; done || lia.
  - exists i. split; [by apply add_all_old|]. repeat split; done || lia.
Qed.

(** ** The counters fit in 64 bits *)

Lemma step_new_row utcnow r s :
  step utcnow r s = s
  ∨ (bookings (step utcnow r s) = bookings s
     ∧ (∀ id m, members s !! id = None →
                members (step utcnow r s) !! id = Some m →
                int64 (booking_count m) = true)
     ∧ (∀ id i, inventory s !! id = None →
                inventory (step utcnow r s) !! id = Some i →
                int64 (remaining_count i) = true))
  ∨ ((∀ id, members s !! id = None → members (step utcnow r s) !! id = None)
     ∧ (∀ id, inventory s !! id = None →
              inventory (step utcnow r s) !! id = None)).
Proof.
  rewrite step_disk.
  destruct r as [member_csv inventory_csv|mid iid|bid]; unfold handle.
  - destruct (import_data_cases utcnow member_csv inventory_csv s)
      as [[? _]|(rows & rows' & _ & _ & -> & _ & Hfits)]; [by left|].
    right. left. unfold fits in Hfits.
    apply andb_prop in Hfits as [Hms Hitems].
    rewrite forallb_forall in Hms, Hitems.
    split; [done|]. split.
    + intros id m Hnone Hm. unfold imported in Hm. cbn [members] in Hm.
      apply add_all_new in Hm as [?|[_ Hm]]; [congruence|].
      apply Hms. by apply list_elem_of_In.
    + intros id i Hnone Hi. unfold imported in Hi. cbn [inventory] in Hi.
      apply add_all_new in Hi as [?|[_ Hi]]; [congruence|].
      apply Hitems. by apply list_elem_of_In.
  - destruct (book_item_disk_cases utcnow mid iid s)
      as [[? _]|(m & i & Hm & Hi & _ & _ & -> & _)]; [by left|].
    do 2 right. unfold booked. cbn [members inventory]. split.
    + intros id Hnone. rewrite lookup_insert_ne; [done|congruence].
    + intros id Hnone. rewrite lookup_insert_ne; [done|congruence].
  - destruct (cancel_booking_cases utcnow bid s)
      as [[? _]|(b & m & i & _ & Hm & Hi & -> & _)]; [by left|].
    do 2 right. unfold cancelled. cbn [members inventory]. split.
    + intros id Hnone. rewrite lookup_insert_ne; [done|congruence].
    + intros id Hnone. rewrite lookup_insert_ne; [done|congruence].
Qed.

Lemma no_bookings_yet s id :
  linked s → members s !! id = None → member_bookings s id = 0%nat.
Proof.
  intros Hlink Hnone. unfold member_bookings. apply size_filter_none.
  intros k b Hb Hid. simpl in Hid.
  destruct (Hlink k b Hb) as [[m Hm] _]. congruence.
Qed.

Lemma no_item_bookings_yet s id :
  linked s → inventory s !! id = None → item_bookings s id = 0%nat.
Proof.
  intros Hlink Hnone. unfold item_bookings. apply size_filter_none.
  intros k b Hb Hid. simpl in Hid.
  destruct (Hlink k b Hb) as [_ [i Hi]]. congruence.
Qed.

Lemma step_counters_fit utcnow r s :
  linked s →
  (∀ id m, members s !! id = Some m → min_int64 ≤ surplus s id m) →
  (∀ id i, inventory s !! id = Some i → stock s id i ≤ max_int64) →
  (∀ id m, members (step utcnow r s) !! id = Some m →
           min_int64 ≤ surplus (step utcnow r s) id m)
  ∧ (∀ id i, inventory (step utcnow r s) !! id = Some i →
             stock (step utcnow r s) id i ≤ max_int64).
Proof.
  intros Hlink Hmem Hitem. split.
  - intros id m' Hm'. destruct (members s !! id) as [m|] eqn:Hm.
    + destruct (member_step utcnow r s id m Hm)
        as (m'' & Hm'' & _ & _ & _ & Hs & _).
      assert (m'' = m') as -> by congruence. rewrite Hs. by apply Hmem.
    + destruct (step_new_row utcnow r s) as [Heq|[(Hb & Hnew & _)|[Hno _]]].
      * rewrite Heq in Hm'. congruence.
      * pose proof (Hnew id m' Hm Hm') as Hfit.
        unfold surplus, member_bookings. rewrite Hb.
        fold (member_bookings s id). rewrite (no_bookings_yet s id Hlink Hm).
        unfold int64 in Hfit. apply andb_prop in Hfit as [?%Z.leb_le _]. lia.
      * rewrite (Hno id Hm) in Hm'. congruence.
  - intros id i' Hi'. destruct (inventory s !! id) as [i|] eqn:Hi.
    + destruct (item_step utcnow r s id i Hi)
        as (i'' & Hi'' & _ & _ & _ & Hs & _).
      assert (i'' = i') as -> by congruence. rewrite Hs. by apply (Hitem id).
    + destruct (step_new_row utcnow r s) as [Heq|[(Hb & _ & Hnew)|[_ Hno]]].
      * rewrite Heq in Hi'. congruence.
      * pose proof (Hnew id i' Hi Hi') as Hfit.
        unfold stock, item_bookings. rewrite Hb.
        fold (item_bookings s id).
        rewrite (no_item_bookings_yet s id Hlink Hi).
        unfold int64 in Hfit. apply andb_prop in Hfit as [_ ?%Z.leb_le]. lia.
      * rewrite (Hno id Hi) in Hi'. congruence.
Qed.

(** In every store that the service reaches, a member's counter is at least
    the least 64-bit integer plus the number of Booking rows that reference
    the member, and an item's counter at most the greatest 64-bit integer
    minus the number of Booking rows that reference the item. *)
Lemma reachable_counters_fit s :
  reachable s →
  (∀ id m, members s !! id = Some m → min_int64 ≤ surplus s id m)
  ∧ (∀ id i, inventory s !! id = Some i → stock s id i ≤ max_int64).
Proof.
  intros Hreach. pose proof Hreach as Hr.
  induction Hr as [|utcnow r s _ Hr IH].
  - split; intros k x Hk; simpl in Hk; by rewrite lookup_empty in Hk.
  - destruct (IH Hr) as [Hmem Hitem].
    by apply step_counters_fit; [apply reachable_linked|..].
Qed.

Lemma booking_counted s bid b :
  bookings s !! bid = Some b →
  (1 ≤ member_bookings s (member_id b))%nat
  ∧ (1 ≤ item_bookings s (inventory_id b))%nat.
Proof.
  intros Hb. unfold member_bookings, item_bookings.
  rewrite (size_filter_delete _ _ bid b Hb).
  rewrite (size_filter_delete (λ kb, inventory_id kb.2 = inventory_id b)
             _ bid b Hb).
  rewrite !decide_True by done. lia.
Qed.

(** The counters that a cancellation writes fit in 64 bits, in every store
    that the service reaches. *)
Lemma reachable_cancel_fits s bid b m i :
  reachable s →
  bookings s !! bid = Some b →
  members s !! member_id b = Some m →
  inventory s !! inventory_id b = Some i →
  min_int64 < booking_count m ∧ remaining_count i < max_int64.
Proof.
  intros [Hmem Hitem]%reachable_counters_fit Hb Hm Hi.
  specialize (Hmem _ _ Hm). specialize (Hitem _ _ Hi).
  destruct (booking_counted s bid b Hb).
  unfold surplus in Hmem. unfold stock in Hitem. lia.
Qed.

(** C4, as the code has it.  [cancel_booking] on the key of a Booking row
    whose member and item exist, with counters that the change keeps within
    64 bits, as is the case in every store that the service reaches,
    commits once: the member's [booking_count] is one lower, whatever its
    value was (so a count of 0 or less becomes negative), the item's
    [remaining_count] is one higher, and the Booking row is gone.  In a
    database whose tables exist, a key that fits in 64 bits and names no
    Booking row is answered with 404 "Booking not found", and the database
    is left as it was; before the tables exist, and for a key that names no
    row and does not fit in 64 bits, the lookup raises, and the database is
    left as it was.  Whatever the key, the committed store is afterwards
    either the old one or the one with all three effects. *)
Theorem cancel_booking_effect utcnow bid :
  (∀ s b m i,
     bookings s !! bid = Some b →
     members s !! member_id b = Some m →
     inventory s !! inventory_id b = Some i →
     min_int64 < booking_count m → remaining_count i < max_int64 →
     let s' := cancelled s bid b m i in
     cancel_booking utcnow bid (connect s)
     = (Message "Booking cancelled successfully" None, mk_db s' [] [s'])
     ∧ booking_count <$> members s' !! member_id b = Some (booking_count m - 1)
     ∧ remaining_count <$> inventory s' !! inventory_id b
       = Some (remaining_count i + 1)
     ∧ bookings s' !! bid = None
     ∧ (booking_count m ≤ 0 →
        ∃ m', members s' !! member_id b = Some m' ∧ booking_count m' < 0))
  ∧ (∀ s b,
       reachable s → bookings s !! bid = Some b →
       ∃ m i, members s !! member_id b = Some m
              ∧ inventory s !! inventory_id b = Some i
              ∧ min_int64 < booking_count m ∧ remaining_count i < max_int64
              ∧ cancel_booking utcnow bid (connect s)
                = (Message "Booking cancelled successfully" None,
                   mk_db (cancelled s bid b m i) [] [cancelled s bid b m i]))
  ∧ (∀ d, tables d = true → int64 bid = true →
          bookings (disk d) !! bid = None →
          cancel_booking utcnow bid d = (Error "Booking not found" 404, d))
  ∧ (∀ d, tables d = false
          ∨ (bookings (disk d) !! bid = None ∧ int64 bid = false) →
          cancel_booking utcnow bid d = (Uncaught, d))
  ∧ (∀ s, let d' := snd (cancel_booking utcnow bid (connect s)) in
          (disk d' = s ∧ commits d' = [])
          ∨ (∃ b m i,
               bookings s !! bid = Some b ∧ members s !! member_id b = Some m
               ∧ inventory s !! inventory_id b = Some i
               ∧ disk d' = cancelled s bid b m i ∧ commits d' = [disk d'])).
Proof.
  split; [|split; [|split; [|split]]].
  - intros s b m i Hb Hm Hi _ _ s'. subst s'. unfold cancelled at 2 3 4 5.
    simpl. rewrite !lookup_insert_eq, lookup_delete_eq. simpl.
    repeat split; [by apply cancel_booking_ok|].
    intros Hle. eexists. split; [done|]. simpl. lia.
  - intros s b Hreach Hb.
    destruct (reachable_linked s Hreach bid b Hb) as [[m Hm] [i Hi]].
    destruct (reachable_cancel_fits s bid b m i Hreach Hb Hm Hi).
    exists m, i. repeat split; [done..|]. by apply cancel_booking_ok.
  - intros d Ht Hbid Hb. unfold cancel_booking. rewrite Ht. cbn [negb].
    by rewrite (query_get_None _ _ Hb Hbid).
  - intros d. unfold cancel_booking.
    destruct (tables d); [|done]. cbn [negb].
    intros [?|[Hb Hbid]]; [done|].
    by rewrite (query_get_raises _ _ Hb Hbid).
  - apply cancel_booking_cases.
Qed.

Lemma cancel_booking_effect_witness :
  cancel_booking t1 1 (connect (shop_booked 0 3))
  = (Message "Booking cancelled successfully" None,
     mk_db (shop (-1) 4) [] [shop (-1) 4])
  ∧ cancel_booking t1 9999 (connect (shop_booked 1 3))
    = (Error "Booking not found" 404, connect (shop_booked 1 3))
  ∧ cancel_booking t1 1 no_tables = (Uncaught, no_tables)
  ∧ cancel_booking t1 (max_int64 + 1) (connect (shop_booked 1 3))
    = (Uncaught, connect (shop_booked 1 3)).
Proof.
  split; [|split; [|split]].
  - pose proof (proj1 (cancel_booking_effect t1 1) (shop_booked 0 3)
                  (mk_Booking t0 1 1) (ann 0) (bike 3)) as H.
    simpl in H.
    rewrite (proj1 (H eq_refl eq_refl eq_refl eq_refl eq_refl)).
    vm_compute. reflexivity.
  - apply (proj1 (proj2 (proj2 (cancel_booking_effect t1 9999))));
      [reflexivity|reflexivity|vm_compute; reflexivity].
  - apply (proj1 (proj2 (proj2 (proj2 (cancel_booking_effect t1 1))))).
    by left.
  - apply (proj1 (proj2 (proj2 (proj2
             (cancel_booking_effect t1 (max_int64 + 1)))))).
    right. split; vm_compute; reflexivity.
Defined.

(** C4 does not hold for every key: the key 2^63, which names no Booking
    row, is not answered with the 404; the lookup raises. *)
Lemma cancel_booking_not_always_404 :
  ¬ (∀ utcnow bid d,
       bookings (disk d) !! bid = None →
       cancel_booking utcnow bid d = (Error "Booking not found" 404, d)).
Proof.
  intros H.
  specialize (H t0 9223372036854775808 (connect (shop_booked 1 3))).
  assert (cancel_booking t0 9223372036854775808 (connect (shop_booked 1 3))
          = (Uncaught, connect (shop_booked 1 3))) as Hraise
    by (vm_compute; reflexivity).
  rewrite Hraise in H. discriminate H. vm_compute. reflexivity.
Qed.

(** ** The counters and the Booking rows *)

Lemma member_of_row_unbooked rows m :
  Forall unbooked_row rows → m ∈ omap member_of_row rows → booking_count m = 0.
Proof.
  intros Hrows (row & Hrow & Hm)%list_elem_of_omap.
  rewrite Forall_forall in Hrows. specialize (Hrows row Hrow).
  unfold member_of_row in Hm.
  destruct (parse_date _); [|done]. by injection Hm as <-.
Qed.

Lemma inventory_of_row_stocked rows i :
  Forall stocked_row rows → i ∈ omap inventory_of_row rows →
  0 ≤ remaining_count i.
Proof.
  intros Hrows (row & Hrow & Hi)%list_elem_of_omap.
  rewrite Forall_forall in Hrows. specialize (Hrows row Hrow).
  unfold inventory_of_row in Hi.
  destruct (parse_date _); [|done]. by injection Hi as <-.
Qed.

Lemma booked_consistent utcnow s mid iid m i :
  members s !! mid = Some m → inventory s !! iid = Some i →
  booking_count m < 2 → 0 < remaining_count i →
  members_consistent s → items_nonnegative s → linked s →
  let s' := booked utcnow s mid iid m i (next_id (bookings s)) in
  members_consistent s' ∧ items_nonnegative s' ∧ linked s'.
Proof.
  intros Hm Hi Hbc Hrc Hmem Hitem Hlink s'. subst s'.
  pose proof (next_id_fresh (bookings s)) as Hfresh.
  split; [|split].
  - intros id m' Hm'. rewrite member_bookings_booked by done.
    unfold booked in Hm'. cbn [members] in Hm'.
    destruct (decide (mid = id)) as [->|Hne].
    + rewrite lookup_insert_eq in Hm'. injection Hm' as <-. simpl.
      destruct (Hmem id m Hm) as [Hcount _]. unfold MAX_BOOKINGS. lia.
    + rewrite lookup_insert_ne in Hm' by done. by apply Hmem.
  - intros id i' Hi'. unfold booked in Hi'. cbn [inventory] in Hi'.
    destruct (decide (iid = id)) as [->|Hne].
    + rewrite lookup_insert_eq in Hi'. injection Hi' as <-. simpl. lia.
    + rewrite lookup_insert_ne in Hi' by done. by apply (Hitem id).
  - intros bid b Hb. unfold booked in *. cbn [members inventory bookings] in *.
    destruct (decide (next_id (bookings s) = bid)) as [<-|Hne].
    + rewrite lookup_insert_eq in Hb. injection Hb as <-. simpl.
      rewrite !lookup_insert_eq. eauto.
    + rewrite lookup_insert_ne in Hb by done.
      destruct (Hlink bid b Hb). split; by apply is_Some_insert.
Qed.

Lemma cancelled_consistent s bid b m i :
  bookings s !! bid = Some b → members s !! member_id b = Some m →
  inventory s !! inventory_id b = Some i →
  members_consistent s → items_nonnegative s → linked s →
  let s' := cancelled s bid b m i in
  members_consistent s' ∧ items_nonnegative s' ∧ linked s'.
Proof.
  intros Hb Hm Hi Hmem Hitem Hlink s'. subst s'.
  split; [|split].
  - intros id m' Hm'.
    pose proof (member_bookings_cancelled s bid b m i id Hb) as Hcount.
    unfold cancelled in Hm'. cbn [members] in Hm'.
    destruct (decide (member_id b = id)) as [Heq|Hne].
    + rewrite Heq, lookup_insert_eq in Hm'. injection Hm' as <-. simpl.
      rewrite Heq in Hm. destruct (Hmem id m Hm) as [Hc Hle]. lia.
    + rewrite lookup_insert_ne in Hm' by done.
      rewrite <- Hcount. by apply Hmem.
  - intros id i' Hi'. unfold cancelled in Hi'. cbn [inventory] in Hi'.
    destruct (decide (inventory_id b = id)) as [Heq|Hne].
    + rewrite Heq, lookup_insert_eq in Hi'. injection Hi' as <-. simpl.
      specialize (Hitem _ _ Hi). lia.
    + rewrite lookup_insert_ne in Hi' by done. by apply (Hitem id).
  - intros bid' b' Hb'. unfold cancelled in *.
    cbn [members inventory bookings] in *.
    apply lookup_delete_Some in Hb' as [_ Hb'].
    destruct (Hlink bid' b' Hb'). split; by apply is_Some_insert.
Qed.

Lemma imported_consistent s rows rows' :
  Forall unbooked_row rows → Forall stocked_row rows' →
  members_consistent s → items_nonnegative s → linked s →
  let s' := imported s (omap member_of_row rows)
                       (omap inventory_of_row rows') in
  members_consistent s' ∧ items_nonnegative s' ∧ linked s'.
Proof.
  intros Hrows Hrows' Hmem Hitem Hlink s'. subst s'.
  split; [|split].
  - intros id m Hm. unfold imported in Hm. cbn [members] in Hm.
    change (member_bookings (imported s _ _) id) with (member_bookings s id).
    apply add_all_new in Hm as [Hm|[Hnew Hm]]; [by apply Hmem|].
    rewrite (member_of_row_unbooked rows m Hrows Hm).
    unfold member_bookings. rewrite size_filter_none; [done|].
    intros k b Hb Hid. simpl in Hid.
    destruct (Hlink k b Hb) as [[m' Hm'] _]. congruence.
  - intros id i Hi. unfold imported in Hi. cbn [inventory] in Hi.
    apply add_all_new in Hi as [Hi|[_ Hi]]; [by apply (Hitem id)|].
    by apply (inventory_of_row_stocked rows').
  - intros bid b Hb. destruct (Hlink bid b Hb).
    split; by apply is_Some_add_all.
Qed.

(** A request keeps the units of every item it finds: what it takes from
    [remaining_count] it adds to the Booking rows, and back. *)
Lemma stock_step utcnow r s id i :
  inventory s !! id = Some i →
  ∃ i', inventory (step utcnow r s) !! id = Some i'
        ∧ stock (step utcnow r s) id i' = stock s id i.
Proof.
  intros Hid.
  destruct (step_cases utcnow r s)
    as [->|[(mid & iid & m & i0 & _ & Hm & Hi & _ & _ & ->)
           |[(bid & b & m & i0 & _ & Hb & Hm & Hi & ->)
            |(rows & rows' & _ & ->)]]].
  - by exists i.
  - unfold stock. rewrite item_bookings_booked by apply next_id_fresh.
    unfold booked. cbn [inventory].
    destruct (decide (iid = id)) as [->|Hne].
    + rewrite lookup_insert_eq. eexists. split; [done|].
      simpl. replace i0 with i by congruence. lia.
    + rewrite lookup_insert_ne by done. by exists i.
  - unfold stock. rewrite (item_bookings_cancelled s bid b m i0 id Hb).
    unfold cancelled at 1. cbn [inventory].
    destruct (decide (inventory_id b = id)) as [Heq|Hne].
    + rewrite Heq, lookup_insert_eq. eexists. split; [done|].
      simpl. rewrite Heq in Hi. replace i0 with i by congruence. lia.
    + rewrite lookup_insert_ne by done. by exists i.
  - exists i. split; [by apply add_all_old|done].
Qed.

Lemma step_consistent utcnow r s :
  plain_import r →
  members_consistent s ∧ items_nonnegative s ∧ linked s →
  members_consistent (step utcnow r s) ∧ items_nonnegative (step utcnow r s)
  ∧ linked (step utcnow r s).
Proof.
  intros Hr (Hmem & Hitem & Hlink).
  destruct (step_cases utcnow r s)
    as [->|[(mid & iid & m & i & _ & Hm & Hi & Hbc & Hrc & ->)
           |[(bid & b & m & i & _ & Hb & Hm & Hi & ->)
            |(rows & rows' & -> & ->)]]].
  - done.
  - by apply booked_consistent.
  - by apply cancelled_consistent.
  - destruct Hr as [Hrows Hrows']. by apply imported_consistent.
Qed.

(** C1, as the code has it.  The import copies [booking_count] and
    [remaining_count] from the source files.  At every store reached from the
    empty database by imports whose member rows carry a [booking_count] of 0
    and whose inventory rows carry no negative [remaining_count], and by any
    bookings and cancellations: each member's [booking_count] is the number
    of Booking rows that reference the member and is at most 2; no item's
    [remaining_count] is negative; every Booking row references a member and
    an item that exist; and any further request leaves, for every item, the
    sum of its [remaining_count] and of the Booking rows that reference it
    as it was. *)
Theorem counters_invariant s :
  reachable_by plain_import s →
  members_consistent s
  ∧ items_nonnegative s
  ∧ linked s
  ∧ ∀ utcnow r id i,
      inventory s !! id = Some i →
      ∃ i', inventory (step utcnow r s) !! id = Some i'
            ∧ stock (step utcnow r s) id i' = stock s id i.
Proof.
  intros Hreach.
  cut (members_consistent s ∧ items_nonnegative s ∧ linked s).
  { intros (? & ? & ?). do 3 (split; [done|]).
    intros utcnow r k i. apply stock_step. }
  induction Hreach as [|utcnow r s Hr Hreach IH].
  - split; [|split]; intros k x Hk; simpl in Hk; by rewrite lookup_empty in Hk.
  - by apply step_consistent.
Qed.

Lemma counters_invariant_witness :
  let s := step t1 (ReqBook 1 1)
             (step t0 (ReqImport (readable [row_ann; row_bob] end_of_file)
                                 (readable [row_bike] end_of_file))
                empty_store) in
  reachable_by plain_import s
  ∧ members_consistent s
  ∧ items_nonnegative s
  ∧ linked s
  ∧ ∀ utcnow r id i,
      inventory s !! id = Some i →
      ∃ i', inventory (step utcnow r s) !! id = Some i'
            ∧ stock (step utcnow r s) id i' = stock s id i.
Proof.
  intros s.
  assert (reachable_by plain_import s) as Hreach.
  { apply reach_step; [exact I|].
    apply reach_step; [|apply reach_empty].
    split.
    - apply Forall_cons_2; [vm_compute; reflexivity|].
      apply Forall_cons_2; [vm_compute; reflexivity|apply Forall_nil_2].
    - apply Forall_cons_2; [|apply Forall_nil_2].
      unfold stocked_row. vm_compute. discriminate. }
  split; [exact Hreach|apply (counters_invariant s Hreach)].
Defined.

(** C1 does not hold in the general form: importing a member row with
    [booking_count] 3 and an inventory row with [remaining_count] -1 leaves
    a member whose count is 3, above the maximum, with no Booking row, and
    an item whose count is negative. *)
Lemma counters_not_invariant :
  ¬ (∀ s, reachable s → members_consistent s ∧ items_nonnegative s).
Proof.
  intros H.
  pose (s := step t0 (ReqImport (readable [row_eve] end_of_file)
                                (readable [row_oar] end_of_file))
               empty_store).
  assert (reachable s) as Hreach.
  { apply reach_step; [exact I|apply reach_empty]. }
  destruct (H s Hreach) as [Hmem _].
  destruct (Hmem 1 (mk_Member "Eve" "Orr" 3 (mk_datetime 2024 1 5 0 0 0)))
    as [_ Hle]; [vm_compute; reflexivity|].
  vm_compute in Hle. by apply Hle.
Qed.

(** * Further properties *)

(** ** Imports that fail, and imports of nothing *)

(** X1.  When the reader of [member.csv] or of [inventory.csv] raises while
    the rows are read, [import_data] answers 500 "Import failed: ..." with
    the detail of the error, rolls the session back and commits nothing,
    whatever rows were read before; when it is [member.csv] that fails, the
    inventory file plays no part. *)
Theorem import_data_read_error utcnow detail :
  (∀ rows inventory_csv d,
     import_data utcnow (readable rows (read_error detail)) inventory_csv d
     = (Error ("Import failed: " ++ detail) 500,
        mk_db (disk d) [] (commits d)))
  ∧ (∀ rows rows' d,
       import_data utcnow (readable rows end_of_file)
         (readable rows' (read_error detail)) d
       = (Error ("Import failed: " ++ detail) 500,
          mk_db (disk d) [] (commits d))).
Proof.
  split.
  - intros rows inventory_csv d. unfold import_data.
    by rewrite import_members_session.
  - intros rows rows' d. unfold import_data.
    by rewrite import_inventory_session, import_members_session.
Qed.

Lemma step_import_ok utcnow rows rows' s :
  fits (omap member_of_row rows) (omap inventory_of_row rows') = true →
  step utcnow (ReqImport (readable rows end_of_file)
                         (readable rows' end_of_file)) s
  = imported s (omap member_of_row rows) (omap inventory_of_row rows').
Proof.
  intros Hfits. rewrite step_disk. unfold handle.
  by rewrite import_data_ok.
Qed.


Lemma fits_app ms1 ms2 is1 is2 :
  fits ms1 is1 = true → fits ms2 is2 = true →
  fits (ms1 ++ ms2) (is1 ++ is2) = true.
Proof.
  unfold fits. rewrite !forallb_app.
  intros [-> ->]%andb_prop [-> ->]%andb_prop. done.
Qed.

Lemma omap_member_of_row_none rows :
  Forall (λ row, parse_date (row_get row "date_joined") = None) rows →
  omap member_of_row rows = [].
Proof.
  induction 1 as [|row rows Hrow _ IH]; simpl; [done|].
  by rewrite (member_of_row_None row Hrow).
Qed.

Lemma omap_inventory_of_row_none rows :
  Forall (λ row, parse_date (row_get row "expiration_date") = None) rows →
  omap inventory_of_row rows = [].
Proof.
  induction 1 as [|row rows Hrow _ IH]; simpl; [done|].
  by rewrite (inventory_of_row_None row Hrow).
Qed.

(** X2.  An import of two files in which no row has a date that parses (two
    empty files, for one) still answers "Data imported successfully", and
    leaves the store exactly as it was. *)
Theorem import_data_nothing utcnow rows rows' s :
  Forall (λ row, parse_date (row_get row "date_joined") = None) rows →
  Forall (λ row, parse_date (row_get row "expiration_date") = None) rows' →
  serve utcnow (ReqImport (readable rows end_of_file)
                          (readable rows' end_of_file)) s
  = (Message "Data imported successfully" None, s).
Proof.
  intros Hrows Hrows'. unfold serve, handle.
  rewrite import_data_ok
    by (by rewrite (omap_member_of_row_none rows Hrows),
             (omap_inventory_of_row_none rows' Hrows')).
  simpl.
  rewrite (omap_member_of_row_none rows Hrows).
  rewrite (omap_inventory_of_row_none rows' Hrows').
  by destruct s.
Qed.

Lemma import_data_nothing_witness :
  serve t1 (ReqImport (readable [row_bob] end_of_file)
                      (readable [row_kite] end_of_file)) (shop_booked 1 2)
  = (Message "Data imported successfully" None, shop_booked 1 2).
Proof.
  apply (import_data_nothing t1 [row_bob] [row_kite] (shop_booked 1 2)).
  - apply Forall_cons_2; [vm_compute; reflexivity|apply Forall_nil_2].
  - apply Forall_cons_2; [vm_compute; reflexivity|apply Forall_nil_2].
Defined.

(** ** What an import adds *)

Lemma size_add_all {A} (t : gmap Z A) l :
  size (add_all t l) = (size t + length l)%nat.
Proof.
  revert t. induction l as [|a l IH]; intros t; simpl; [lia|].
  unfold add_all in *. simpl. rewrite IH.
  rewrite map_size_insert_None by apply next_id_fresh. lia.
Qed.

Lemma length_omap_member_of_row rows :
  length (omap member_of_row rows) = length (dated "date_joined" rows).
Proof.
  unfold dated. induction rows as [|row rows IH]; [done|].
  rewrite filter_cons.
  change (omap member_of_row (row :: rows))
    with (match member_of_row row with
          | Some x => x :: omap member_of_row rows
          | None => omap member_of_row rows
          end).
  unfold member_of_row at 1.
  destruct (parse_date (row_get row "date_joined")) as [t|] eqn:E.
  - rewrite decide_True by eauto. simpl. by f_equal.
  - by rewrite decide_False by (by intros [? ?]).
Qed.

Lemma length_omap_inventory_of_row rows :
  length (omap inventory_of_row rows) = length (dated "expiration_date" rows).
Proof.
  unfold dated. induction rows as [|row rows IH]; [done|].
  rewrite filter_cons.
  change (omap inventory_of_row (row :: rows))
    with (match inventory_of_row row with
          | Some x => x :: omap inventory_of_row rows
          | None => omap inventory_of_row rows
          end).
  unfold inventory_of_row at 1.
  destruct (parse_date (row_get row "expiration_date")) as [t|] eqn:E.
  - rewrite decide_True by eauto. simpl. by f_equal.
  - by rewrite decide_False by (by intros [? ?]).
Qed.

(** X3.  An import that reads both files to their end, and in which the
    counter of every row whose date parses fits in 64 bits, adds one Member
    row for each row of [member.csv] whose [date_joined] parses and one
    Inventory row for each row of [inventory.csv] whose [expiration_date]
    parses, and nothing else: the rows the tables held before are all still
    there, unchanged, and the Booking rows are as they were.  (So importing
    the same files again stores every record a second time.) *)
Theorem import_data_adds utcnow rows rows' s :
  fits (omap member_of_row rows) (omap inventory_of_row rows') = true →
  let s' := step utcnow (ReqImport (readable rows end_of_file)
                                   (readable rows' end_of_file)) s in
  size (members s')
  = (size (members s) + length (dated "date_joined" rows))%nat
  ∧ size (inventory s')
    = (size (inventory s) + length (dated "expiration_date" rows'))%nat
  ∧ bookings s' = bookings s
  ∧ (∀ k m, members s !! k = Some m → members s' !! k = Some m)
  ∧ (∀ k i, inventory s !! k = Some i → inventory s' !! k = Some i).
Proof.
  intros Hfits s'. subst s'. rewrite step_import_ok by done.
  unfold imported. simpl.
  rewrite !size_add_all, length_omap_member_of_row,
    length_omap_inventory_of_row.
  repeat split; intros k x Hk; by apply add_all_old.
Qed.

Lemma import_data_adds_witness :
  let s' := step t1 (ReqImport (readable [row_ann; row_bob] end_of_file)
                               (readable [row_bike] end_of_file))
              (shop_booked 1 2) in
  size (members s') = 2%nat ∧ size (inventory s') = 2%nat
  ∧ bookings s' = bookings (shop_booked 1 2).
Proof.
  pose proof (import_data_adds t1 [row_ann; row_bob] [row_bike]
                (shop_booked 1 2) eq_refl) as (Hm & Hi & Hb & _).
  split; [|split]; [rewrite Hm|rewrite Hi|exact Hb]; vm_compute; reflexivity.
Defined.

Lemma max_key_spec {A} (t : gmap Z A) :
  match max_key t with
  | None => t = ∅
  | Some a => is_Some (t !! a) ∧ ∀ k x, t !! k = Some x → k ≤ a
  end.
Proof.
  unfold max_key.
  apply (map_fold_weak_ind
           (λ r (m : gmap Z A),
              match r with
              | None => m = ∅
              | Some a => is_Some (m !! a) ∧ ∀ k x, m !! k = Some x → k ≤ a
              end)); [done|].
  intros i y m r Hi IH. destruct r as [a|].
  - destruct IH as [[x Ha] Hmax]. split.
    + destruct (Z.max_spec i a) as [[_ ->]|[_ ->]].
      * rewrite lookup_insert_ne; [eauto|]. intros ->. congruence.
      * rewrite lookup_insert_eq. eauto.
    + intros k x' Hk. destruct (decide (i = k)) as [->|Hne]; [lia|].
      rewrite lookup_insert_ne in Hk by done. specialize (Hmax k x' Hk). lia.
  - subst m. split; [rewrite lookup_insert_eq; eauto|].
    intros k x Hk. destruct (decide (i = k)) as [->|Hne]; [lia|].
    rewrite lookup_insert_ne in Hk by done. by rewrite lookup_empty in Hk.
Qed.

Lemma next_id_insert {A} (t : gmap Z A) x :
  next_id (<[next_id t := x]> t) = next_id t + 1.
Proof.
  pose proof (max_key_spec (<[next_id t := x]> t)) as H.
  unfold next_id at 1.
  destruct (max_key (<[next_id t := x]> t)) as [a|].
  - destruct H as [[y Ha] Hmax].
    assert (next_id t ≤ a) by (apply (Hmax _ x), lookup_insert_eq).
    destruct (decide (next_id t = a)) as [->|Hne]; [done|].
    rewrite lookup_insert_ne in Ha by done.
    apply next_id_above in Ha. lia.
  - apply (f_equal (λ m, m !! next_id t)) in H.
    by rewrite lookup_insert_eq, lookup_empty in H.
Qed.

Lemma add_all_lookup {A} (t : gmap Z A) l (n : nat) :
  add_all t l !! (next_id t + Z.of_nat n) = l !! n.
Proof.
  revert t n. induction l as [|a l IH]; intros t n.
  - simpl. destruct (t !! (next_id t + Z.of_nat n)) as [x|] eqn:E; [|done].
    apply next_id_above in E. lia.
  - change (add_all t (a :: l)) with (add_all (<[next_id t := a]> t) l).
    destruct n as [|n].
    + rewrite Z.add_0_r. simpl. apply add_all_old, lookup_insert_eq.
    + replace (next_id t + Z.of_nat (S n))
        with (next_id (<[next_id t := a]> t) + Z.of_nat n)
        by (rewrite next_id_insert; lia).
      by rewrite IH.
Qed.

(** X4.  The records of an import that reads both files to their end, and
    in which the counter of every row whose date parses fits in 64 bits,
    get the keys that follow the largest key of their table, in the order
    of the rows in the file: the [n]-th row whose date parses (counting
    from 0) is stored under the next key plus [n], and the keys after those
    stay free. *)
Theorem import_data_keys utcnow rows rows' s (n : nat) :
  fits (omap member_of_row rows) (omap inventory_of_row rows') = true →
  let s' := step utcnow (ReqImport (readable rows end_of_file)
                                   (readable rows' end_of_file)) s in
  members s' !! (next_id (members s) + Z.of_nat n)
  = omap member_of_row rows !! n
  ∧ inventory s' !! (next_id (inventory s) + Z.of_nat n)
    = omap inventory_of_row rows' !! n.
Proof.
  intros Hfits s'. subst s'. rewrite step_import_ok by done.
  unfold imported. simpl. by rewrite !add_all_lookup.
Qed.

Lemma import_data_keys_witness :
  let s' := step t1 (ReqImport (readable [row_bob; row_ann; row_eve]
                                  end_of_file)
                               (readable [row_bike] end_of_file))
              (shop_booked 1 2) in
  name <$> members s' !! 2 = Some "Ann"
  ∧ name <$> members s' !! 3 = Some "Eve"
  ∧ members s' !! 4 = None.
Proof.
  pose proof (λ n, proj1 (import_data_keys t1 [row_bob; row_ann; row_eve]
                            [row_bike] (shop_booked 1 2) n eq_refl)) as H.
  cbv zeta in H. cbv zeta.
  split; [|split].
  - change 2 with (next_id (members (shop_booked 1 2)) + Z.of_nat 0).
    rewrite H. vm_compute. reflexivity.
  - change 3 with (next_id (members (shop_booked 1 2)) + Z.of_nat 1).
    rewrite H. vm_compute. reflexivity.
  - change 4 with (next_id (members (shop_booked 1 2)) + Z.of_nat 2).
    rewrite H. vm_compute. reflexivity.
Defined.

Lemma add_all_app {A} (t : gmap Z A) l1 l2 :
  add_all t (l1 ++ l2) = add_all (add_all t l1) l2.
Proof. unfold add_all. by rewrite foldl_app. Qed.

(** X5.  Two imports in a row, each reading both its files to their end
    with the counter of every row whose date parses within 64 bits, store
    what one import of the two member files put end to end and of the two
    inventory files put end to end stores: the same rows under the same
    keys. *)
Theorem import_data_twice utcnow utcnow' rows1 rows1' rows2 rows2' s :
  fits (omap member_of_row rows1) (omap inventory_of_row rows1') = true →
  fits (omap member_of_row rows2) (omap inventory_of_row rows2') = true →
  step utcnow' (ReqImport (readable rows2 end_of_file)
                          (readable rows2' end_of_file))
    (step utcnow (ReqImport (readable rows1 end_of_file)
                            (readable rows1' end_of_file)) s)
  = step utcnow (ReqImport (readable (rows1 ++ rows2) end_of_file)
                           (readable (rows1' ++ rows2') end_of_file)) s.
Proof.
  intros Hfits1 Hfits2.
  rewrite !step_import_ok
    by (done || (rewrite !omap_app; by apply fits_app)).
  unfold imported. simpl. by rewrite !omap_app, !add_all_app.
Qed.

Lemma import_data_twice_witness :
  step t1 (ReqImport (readable [row_ann] end_of_file)
                     (readable [row_bike] end_of_file))
    (step t0 (ReqImport (readable [row_eve] end_of_file)
                        (readable [] end_of_file)) empty_store)
  = step t0 (ReqImport (readable [row_eve; row_ann] end_of_file)
                       (readable [row_bike] end_of_file)) empty_store.
Proof.
  apply (import_data_twice t0 t1 [row_eve] [] [row_ann] [row_bike]
           empty_store); reflexivity.
Defined.

(** ** Over any sequence of requests *)

Lemma run_snoc reqs tr s :
  run (reqs ++ [tr]) s = step tr.1 tr.2 (run reqs s).
Proof. unfold run. by rewrite foldl_app. Qed.

(** X6.  No sequence of imports, bookings and cancellations deletes a Member
    or an Inventory row or changes anything in it but the counter: the
    member keeps its name, surname and join date, the item its title,
    description and expiration date. *)
Theorem run_keeps_rows reqs s :
  (∀ id m, members s !! id = Some m →
     ∃ m', members (run reqs s) !! id = Some m'
           ∧ name m' = name m ∧ surname m' = surname m
           ∧ date_joined m' = date_joined m)
  ∧ (∀ id i, inventory s !! id = Some i →
       ∃ i', inventory (run reqs s) !! id = Some i'
             ∧ title i' = title i ∧ description i' = description i
             ∧ expiration_date i' = expiration_date i).
Proof.
  induction reqs as [|tr reqs [IHm IHi]] using rev_ind.
  - split; intros id x Hx; exists x; by repeat split.
  - rewrite run_snoc. split.
    + intros id m Hm.
      destruct (IHm id m Hm) as (m1 & Hm1 & <- & <- & <-).
      destruct (member_step tr.1 tr.2 _ id m1 Hm1)
        as (m' & Hm' & ? & ? & ? & _). by exists m'.
    + intros id i Hi.
      destruct (IHi id i Hi) as (i1 & Hi1 & <- & <- & <-).
      destruct (item_step tr.1 tr.2 _ id i1 Hi1)
        as (i' & Hi' & ? & ? & ? & _). by exists i'.
Qed.

Lemma run_keeps_rows_witness :
  (∃ m', members (run [(t1, ReqBook 1 1); (t1, ReqCancel 1)] (shop 0 2)) !! 1
         = Some m'
         ∧ name m' = name (ann 0) ∧ surname m' = surname (ann 0)
         ∧ date_joined m' = date_joined (ann 0))
  ∧ (∃ i', inventory (run [(t1, ReqBook 1 1); (t1, ReqCancel 1)] (shop 0 2)) !! 1
           = Some i'
           ∧ title i' = title (bike 2) ∧ description i' = description (bike 2)
           ∧ expiration_date i' = expiration_date (bike 2)).
Proof.
  pose proof (run_keeps_rows [(t1, ReqBook 1 1); (t1, ReqCancel 1)] (shop 0 2))
    as [Hm Hi].
  split; [apply Hm|apply Hi]; vm_compute; reflexivity.
Defined.

(** X7.  Whatever the store holds and whatever requests follow, every
    request keeps, for each member, the difference between [booking_count]
    and the number of Booking rows that reference the member, and for each
    item, the sum of [remaining_count] and of the number of Booking rows
    that reference the item: a counter that is off stays off by the same
    amount. *)
Theorem run_keeps_balance reqs s :
  (∀ id m, members s !! id = Some m →
     ∃ m', members (run reqs s) !! id = Some m'
           ∧ surplus (run reqs s) id m' = surplus s id m)
  ∧ (∀ id i, inventory s !! id = Some i →
       ∃ i', inventory (run reqs s) !! id = Some i'
             ∧ stock (run reqs s) id i' = stock s id i).
Proof.
  induction reqs as [|tr reqs [IHm IHi]] using rev_ind.
  - split; intros id x Hx; by exists x.
  - rewrite run_snoc. split.
    + intros id m Hm. destruct (IHm id m Hm) as (m1 & Hm1 & <-).
      destruct (member_step tr.1 tr.2 _ id m1 Hm1)
        as (m' & Hm' & _ & _ & _ & ? & _). by exists m'.
    + intros id i Hi. destruct (IHi id i Hi) as (i1 & Hi1 & <-).
      destruct (item_step tr.1 tr.2 _ id i1 Hi1)
        as (i' & Hi' & _ & _ & _ & ? & _). by exists i'.
Qed.

Lemma run_keeps_balance_witness :
  (∃ m', members (run [(t1, ReqBook 1 1); (t0, ReqBook 1 1)] (shop (-3) 1)) !! 1
         = Some m'
         ∧ surplus (run [(t1, ReqBook 1 1); (t0, ReqBook 1 1)] (shop (-3) 1)) 1 m'
           = surplus (shop (-3) 1) 1 (ann (-3)))
  ∧ (∃ i', inventory (run [(t1, ReqBook 1 1); (t0, ReqBook 1 1)] (shop (-3) 1)) !! 1
           = Some i'
           ∧ stock (run [(t1, ReqBook 1 1); (t0, ReqBook 1 1)] (shop (-3) 1)) 1 i'
             = stock (shop (-3) 1) 1 (bike 1)).
Proof.
  pose proof (run_keeps_balance [(t1, ReqBook 1 1); (t0, ReqBook 1 1)]
                (shop (-3) 1)) as [Hm Hi].
  split; [apply Hm|apply Hi]; vm_compute; reflexivity.
Defined.

(** X8.  Whatever the store holds and whatever requests follow, a member's
    [booking_count] never rises above 2 unless it was above 2 before, when it
    never rises above what it was; and an item's [remaining_count] never
    falls below 0 unless it was below 0 before, when it never falls below
    what it was. *)
Theorem run_bounds reqs s :
  (∀ id m, members s !! id = Some m →
     ∃ m', members (run reqs s) !! id = Some m'
           ∧ booking_count m' ≤ Z.max (booking_count m) 2)
  ∧ (∀ id i, inventory s !! id = Some i →
       ∃ i', inventory (run reqs s) !! id = Some i'
             ∧ Z.min (remaining_count i) 0 ≤ remaining_count i').
Proof.
  induction reqs as [|tr reqs [IHm IHi]] using rev_ind.
  - split; intros id x Hx; exists x; split; done || lia.
  - rewrite run_snoc. split.
    + intros id m Hm. destruct (IHm id m Hm) as (m1 & Hm1 & Hle).
      destruct (member_step tr.1 tr.2 _ id m1 Hm1)
        as (m' & Hm' & _ & _ & _ & _ & ?). exists m'. split; [done|lia].
    + intros id i Hi. destruct (IHi id i Hi) as (i1 & Hi1 & Hle).
      destruct (item_step tr.1 tr.2 _ id i1 Hi1)
        as (i' & Hi' & _ & _ & _ & _ & ?). exists i'. split; [done|lia].
Qed.

Lemma run_bounds_witness :
  (∃ m', members (run [(t1, ReqBook 1 1); (t0, ReqBook 1 1); (t1, ReqBook 1 1)]
                    (shop 0 2)) !! 1 = Some m'
         ∧ booking_count m' ≤ Z.max (booking_count (ann 0)) 2)
  ∧ (∃ i', inventory (run [(t1, ReqBook 1 1); (t0, ReqBook 1 1); (t1, ReqBook 1 1)]
                        (shop 0 2)) !! 1 = Some i'
           ∧ Z.min (remaining_count (bike 2)) 0 ≤ remaining_count i').
Proof.
  pose proof (run_bounds [(t1, ReqBook 1 1); (t0, ReqBook 1 1); (t1, ReqBook 1 1)]
                (shop 0 2)) as [Hm Hi].
  split; [apply Hm|apply Hi]; vm_compute; reflexivity.
Defined.

(** ** Bookings and cancellations one after the other *)

Lemma serve_cancel_ok utcnow bid s b m i :
  bookings s !! bid = Some b →
  members s !! member_id b = Some m →
  inventory s !! inventory_id b = Some i →
  serve utcnow (ReqCancel bid) s
  = (Message "Booking cancelled successfully" None, cancelled s bid b m i).
Proof.
  intros Hb Hm Hi. unfold serve, handle.
  by rewrite (cancel_booking_ok utcnow bid s b m i Hb Hm Hi).
Qed.

Lemma serve_cancel_Message_inv utcnow bid s msg k s1 :
  serve utcnow (ReqCancel bid) s = (Message msg k, s1) →
  ∃ b m i, bookings s !! bid = Some b ∧ members s !! member_id b = Some m
           ∧ inventory s !! inventory_id b = Some i
           ∧ s1 = cancelled s bid b m i.
Proof.
  intros Hok.
  destruct (bookings s !! bid) as [b|] eqn:Hb;
    [|unfold serve, handle in Hok;
      rewrite (cancel_booking_none utcnow bid s Hb) in Hok;
      destruct (int64 bid); discriminate].
  destruct (members s !! member_id b) as [m|] eqn:Hm;
    [|unfold serve, handle, cancel_booking in Hok;
      cbn [connect mk_db tables negb disk] in Hok;
      rewrite (query_get_Some _ _ _ Hb), Hm in Hok; discriminate].
  destruct (inventory s !! inventory_id b) as [i|] eqn:Hi;
    [|unfold serve, handle, cancel_booking in Hok;
      cbn [connect mk_db tables negb disk] in Hok;
      rewrite (query_get_Some _ _ _ Hb), Hm, Hi in Hok; discriminate].
  rewrite (serve_cancel_ok utcnow bid s b m i Hb Hm Hi) in Hok.
  exists b, m, i. repeat split; congruence.
Qed.

(** X9.  A booking cannot be cancelled twice: once [cancel_booking] has
    succeeded for a key, the same request again finds no row and changes
    nothing, so the counters move once.  The answer is 404 "Booking not
    found" for every key that fits in 64 bits, as the keys of a table
    do. *)
Theorem cancel_booking_once utcnow utcnow' bid s s1 :
  serve utcnow (ReqCancel bid) s
  = (Message "Booking cancelled successfully" None, s1) →
  serve utcnow' (ReqCancel bid) s1
  = (if int64 bid then Error "Booking not found" 404 else Uncaught, s1).
Proof.
  intros (b & m & i & _ & _ & _ & ->)%serve_cancel_Message_inv.
  unfold serve, handle.
  rewrite cancel_booking_none by apply lookup_delete_eq.
  by destruct (int64 bid).
Qed.

Lemma cancel_booking_once_witness :
  serve t0 (ReqCancel 1) (shop 1 3) = (Error "Booking not found" 404, shop 1 3).
Proof.
  apply (cancel_booking_once t1 t0 1 (shop_booked 2 2) (shop 1 3)).
  vm_compute. reflexivity.
Defined.

(** X10.  When the member or the item that a Booking row references does
    not exist, [cancel_booking] raises: no response is built, nothing is
    committed, and the store is as it was, the change of the member's
    counter included when it is the item that is missing. *)
Theorem cancel_booking_dangling utcnow bid s b :
  bookings s !! bid = Some b →
  members s !! member_id b = None ∨ inventory s !! inventory_id b = None →
  serve utcnow (ReqCancel bid) s = (Uncaught, s)
  ∧ commits (snd (cancel_booking utcnow bid (connect s))) = [].
Proof.
  intros Hb Hnone. unfold serve, handle, cancel_booking.
  cbn [connect mk_db tables negb disk]. rewrite (query_get_Some _ _ _ Hb).
  destruct (members s !! member_id b) as [m|] eqn:Hm; [|done].
  destruct Hnone as [?|Hi]; [done|]. by rewrite Hi.
Qed.

Lemma cancel_booking_dangling_witness :
  serve t1 (ReqCancel 1)
    (mk_store {[ 1 := ann 1 ]} ∅ {[ 1 := mk_Booking t0 1 1 ]})
  = (Uncaught, mk_store {[ 1 := ann 1 ]} ∅ {[ 1 := mk_Booking t0 1 1 ]})
  ∧ commits (snd (cancel_booking t1 1
              (connect (mk_store {[ 1 := ann 1 ]} ∅
                                 {[ 1 := mk_Booking t0 1 1 ]})))) = [].
Proof.
  apply (cancel_booking_dangling t1 1 _ (mk_Booking t0 1 1)).
  - vm_compute. reflexivity.
  - right. vm_compute. reflexivity.
Defined.

(** X11.  Cancelling a booking and booking the same item for the same
    member again brings both counters back, provided the member's
    [booking_count] was at most 2 and the item's [remaining_count] at least
    0: the Member and Inventory tables are as before the cancellation, and
    the Booking table holds a new row for the pair in place of the old
    one. *)
Theorem cancel_then_book utcnow utcnow' bid s b m i :
  bookings s !! bid = Some b →
  members s !! member_id b = Some m →
  inventory s !! inventory_id b = Some i →
  booking_count m ≤ 2 → 0 ≤ remaining_count i →
  ∃ bid' s2,
    serve utcnow' (ReqBook (member_id b) (inventory_id b))
      (step utcnow (ReqCancel bid) s)
    = (Message "Booking successful" (Some bid'), s2)
    ∧ members s2 = members s
    ∧ inventory s2 = inventory s
    ∧ bookings s2
      = <[bid' := mk_Booking utcnow' (member_id b) (inventory_id b)]>
          (delete bid (bookings s)).
Proof.
  intros Hb Hm Hi Hbc Hrc. unfold step.
  rewrite (serve_cancel_ok utcnow bid s b m i Hb Hm Hi). simpl.
  set (s1 := cancelled s bid b m i).
  rewrite (serve_book_ok utcnow' _ _ s1
             (with_booking_count (booking_count m - 1) m)
             (with_remaining_count (remaining_count i + 1) i));
    [|apply lookup_insert_eq|apply lookup_insert_eq|simpl; lia|simpl; lia].
  eexists _, _. split; [reflexivity|].
  unfold booked, s1, cancelled. simpl. rewrite !insert_insert_eq.
  replace (booking_count m - 1 + 1) with (booking_count m) by lia.
  replace (remaining_count i + 1 - 1) with (remaining_count i) by lia.
  unfold with_booking_count at 1, with_remaining_count at 1. simpl.
  fold (with_booking_count (booking_count m) m).
  fold (with_remaining_count (remaining_count i) i).
  rewrite with_booking_count_same, with_remaining_count_same.
  by rewrite (insert_id _ _ _ Hm), (insert_id _ _ _ Hi).
Qed.

Lemma cancel_then_book_witness :
  ∃ bid' s2,
    serve t1 (ReqBook 1 1) (step t0 (ReqCancel 1) (shop_booked 2 0))
    = (Message "Booking successful" (Some bid'), s2)
    ∧ members s2 = members (shop_booked 2 0)
    ∧ inventory s2 = inventory (shop_booked 2 0)
    ∧ bookings s2 = <[bid' := mk_Booking t1 1 1]>
                      (delete 1 (bookings (shop_booked 2 0))).
Proof.
  apply (cancel_then_book t0 t1 1 (shop_booked 2 0) (mk_Booking t0 1 1)
           (ann 2) (bike 0));
    [vm_compute; reflexivity ..|simpl; lia|simpl; lia].
Defined.

(** A booking request for an item with no unit left is refused, whoever
    asks. *)
Lemma serve_book_sold_out utcnow mid iid s i :
  inventory s !! iid = Some i → remaining_count i ≤ 0 →
  ∃ r, serve utcnow (ReqBook mid iid) s = (r, s)
       ∧ ((∃ error status, r = Error error status)
          ∨ (r = Uncaught ∧ int64 mid = false)).
Proof.
  intros Hi Hrc. unfold serve, handle.
  pose proof (book_item_cases utcnow mid iid (connect s) eq_refl) as H.
  change (disk (connect s)) with s in H. rewrite Hi in H.
  destruct (members s !! mid) as [m|] eqn:Hm.
  - destruct (2 <=? booking_count m).
    + rewrite H. eexists. split; [reflexivity|]. left. eauto.
    + assert ((remaining_count i <=? 0) = true) as Hle
        by (apply Z.leb_le; lia).
      rewrite Hle in H. rewrite H. eexists. split; [reflexivity|].
      left. eauto.
  - rewrite H. unfold lookup_raises.
    rewrite (query_get_Some _ _ _ Hi). unfold query_get. rewrite Hm.
    destruct (int64 mid); eexists; (split; [reflexivity|]);
      [left; eauto|by right].
Qed.

(** Requests other than cancellations leave an item with no unit left as it
    is, and a member with two bookings or more too. *)
Lemma step_sold_out utcnow r s iid i :
  is_cancel r = false →
  inventory s !! iid = Some i → remaining_count i ≤ 0 →
  inventory (step utcnow r s) !! iid = Some i.
Proof.
  intros Hr Hi Hrc.
  destruct (step_cases utcnow r s)
    as [->|[(mid & iid0 & m & i0 & _ & _ & Hi0 & _ & Hrc0 & ->)
           |[(bid & b & m & i0 & -> & _)
            |(rows & rows' & _ & ->)]]]; [done| |done|].
  - unfold booked. cbn [inventory].
    rewrite lookup_insert_ne; [done|]. intros ->.
    assert (i0 = i) as -> by congruence. lia.
  - unfold imported. cbn [inventory]. by apply add_all_old.
Qed.

Lemma step_fully_booked utcnow r s mid m :
  is_cancel r = false →
  members s !! mid = Some m → 2 ≤ booking_count m →
  members (step utcnow r s) !! mid = Some m.
Proof.
  intros Hr Hm Hbc.
  destruct (step_cases utcnow r s)
    as [->|[(mid0 & iid & m0 & i & _ & Hm0 & _ & Hbc0 & _ & ->)
           |[(bid & b & m0 & i & -> & _)
            |(rows & rows' & _ & ->)]]]; [done| |done|].
  - unfold booked. cbn [members].
    rewrite lookup_insert_ne; [done|]. intros ->.
    assert (m0 = m) as -> by congruence. lia.
  - unfold imported. cbn [members]. by apply add_all_old.
Qed.

Lemma run_sold_out reqs s iid i :
  no_cancel reqs →
  inventory s !! iid = Some i → remaining_count i ≤ 0 →
  inventory (run reqs s) !! iid = Some i.
Proof.
  intros Hreqs. revert s.
  induction Hreqs as [|[utcnow r] reqs Hr _ IH]; intros s Hi Hrc; [done|].
  apply IH; [|done]. by apply step_sold_out.
Qed.

Lemma run_fully_booked reqs s mid m :
  no_cancel reqs →
  members s !! mid = Some m → 2 ≤ booking_count m →
  members (run reqs s) !! mid = Some m.
Proof.
  intros Hreqs. revert s.
  induction Hreqs as [|[utcnow r] reqs Hr _ IH]; intros s Hm Hbc; [done|].
  apply IH; [|done]. by apply step_fully_booked.
Qed.

(** X12.  Who books the last unit of an item closes it: after a successful
    booking of an item whose [remaining_count] was 1, and whatever imports
    and booking requests are served next, as long as no cancellation is
    requested, every booking request for that item, by any member, is
    refused and changes nothing: it is answered with one of the errors of
    [book_item], or, for a member id that does not fit in 64 bits, the
    lookup raises. *)
Theorem book_item_last_unit utcnow utcnow' mid iid s m i reqs mid' :
  members s !! mid = Some m → inventory s !! iid = Some i →
  booking_count m < 2 → remaining_count i = 1 →
  no_cancel reqs →
  ∃ bid s1,
    serve utcnow (ReqBook mid iid) s
    = (Message "Booking successful" (Some bid), s1)
    ∧ ∃ r, serve utcnow' (ReqBook mid' iid) (run reqs s1) = (r, run reqs s1)
           ∧ ((∃ error status, r = Error error status)
              ∨ (r = Uncaught ∧ int64 mid' = false)).
Proof.
  intros Hm Hi Hbc Hrc Hreqs.
  rewrite (serve_book_ok utcnow mid iid s m i Hm Hi Hbc) by lia.
  eexists _, _. split; [reflexivity|].
  set (s1 := booked utcnow s mid iid m i (next_id (bookings s))).
  assert (inventory s1 !! iid
          = Some (with_remaining_count (remaining_count i - 1) i)) as Hi1
    by apply lookup_insert_eq.
  assert (remaining_count (with_remaining_count (remaining_count i - 1) i)
          ≤ 0) as Hrc1 by (cbn [remaining_count with_remaining_count]; lia).
  apply (serve_book_sold_out utcnow' mid' iid (run reqs s1) _
           (run_sold_out reqs s1 iid _ Hreqs Hi1 Hrc1) Hrc1).
Qed.

Lemma book_item_last_unit_witness :
  ∃ bid s1,
    serve t0 (ReqBook 1 1) (shop 0 1)
    = (Message "Booking successful" (Some bid), s1)
    ∧ ∃ r, serve t1 (ReqBook 2 1)
             (run [(t0, ReqImport (readable [row_eve] end_of_file)
                                  (readable [row_bike] end_of_file));
                   (t1, ReqBook 1 2)] s1)
           = (r, run [(t0, ReqImport (readable [row_eve] end_of_file)
                                     (readable [row_bike] end_of_file));
                      (t1, ReqBook 1 2)] s1)
           ∧ ((∃ error status, r = Error error status)
              ∨ (r = Uncaught ∧ int64 2 = false)).
Proof.
  apply (book_item_last_unit t0 t1 1 1 (shop 0 1) (ann 0) (bike 1)
           [(t0, ReqImport (readable [row_eve] end_of_file)
                           (readable [row_bike] end_of_file));
            (t1, ReqBook 1 2)] 2);
    [vm_compute; reflexivity ..|simpl; lia|reflexivity|].
  repeat constructor.
Defined.

(** X13.  A member's second booking is the last: after a successful
    booking by a member whose [booking_count] was 1, and whatever imports
    and booking requests are served next, as long as no cancellation is
    requested, every booking request of that member for an item that
    exists answers 400 "Maximum bookings reached" and changes nothing,
    however many units the item has left. *)
Theorem book_item_third utcnow utcnow' mid iid s m i reqs iid' :
  members s !! mid = Some m → inventory s !! iid = Some i →
  booking_count m = 1 → 0 < remaining_count i →
  no_cancel reqs →
  ∃ bid s1,
    serve utcnow (ReqBook mid iid) s
    = (Message "Booking successful" (Some bid), s1)
    ∧ (is_Some (inventory (run reqs s1) !! iid') →
       serve utcnow' (ReqBook mid iid') (run reqs s1)
       = (Error "Maximum bookings reached" 400, run reqs s1)).
Proof.
  intros Hm Hi Hbc Hrc Hreqs.
  rewrite (serve_book_ok utcnow mid iid s m i Hm Hi) by lia.
  eexists _, _. split; [reflexivity|].
  set (s1 := booked utcnow s mid iid m i (next_id (bookings s))).
  intros [i' Hi'].
  assert (members s1 !! mid
          = Some (with_booking_count (booking_count m + 1) m)) as Hm1
    by apply lookup_insert_eq.
  assert (2 ≤ booking_count (with_booking_count (booking_count m + 1) m))
    as Hbc1 by (cbn [booking_count with_booking_count]; lia).
  pose proof (run_fully_booked reqs s1 mid _ Hreqs Hm1 Hbc1) as Hm2.
  pose proof (book_item_cases utcnow' mid iid' (connect (run reqs s1))
                eq_refl) as H.
  unfold serve, handle.
  change (disk (connect (run reqs s1))) with (run reqs s1) in H.
  rewrite Hm2, Hi' in H.
  cbn [booking_count with_booking_count] in H. rewrite Hbc in H.
  change (2 <=? 1 + 1) with true in H. cbn iota in H. by rewrite H.
Qed.

Lemma book_item_third_witness :
  ∃ bid s1,
    serve t0 (ReqBook 1 1) (shop 1 5)
    = (Message "Booking successful" (Some bid), s1)
    ∧ (is_Some (inventory
                  (run [(t0, ReqImport (readable [row_eve] end_of_file)
                                       (readable [row_bike] end_of_file));
                        (t1, ReqBook 2 2)] s1) !! 2) →
       serve t1 (ReqBook 1 2)
         (run [(t0, ReqImport (readable [row_eve] end_of_file)
                              (readable [row_bike] end_of_file));
               (t1, ReqBook 2 2)] s1)
       = (Error "Maximum bookings reached" 400,
          run [(t0, ReqImport (readable [row_eve] end_of_file)
                              (readable [row_bike] end_of_file));
               (t1, ReqBook 2 2)] s1)).
Proof.
  apply (book_item_third t0 t1 1 1 (shop 1 5) (ann 1) (bike 5)
           [(t0, ReqImport (readable [row_eve] end_of_file)
                           (readable [row_bike] end_of_file));
            (t1, ReqBook 2 2)] 2);
    [vm_compute; reflexivity| vm_compute; reflexivity|reflexivity
    |simpl; lia|].
  repeat constructor.
Defined.

(** ** White space around a field *)

Lemma append_nil (r : string) : String.append EmptyString r = r.
Proof. reflexivity. Qed.

Lemma append_cons c (x r : string) :
  String.append (String c x) r = String c (String.append x r).
Proof. reflexivity. Qed.

Lemma lstrip_blank x : Py.all_space x = true → Py.lstrip x = EmptyString.
Proof.
  induction x as [|c x IH]; [done|].
  cbn [Py.all_space Py.lstrip]. intros [Hc Hx]%andb_prop.
  rewrite Hc. by apply IH.
Qed.

Lemma lstrip_all_space l x :
  Py.all_space l = true → Py.lstrip (String.append l x) = Py.lstrip x.
Proof.
  induction l as [|c l IH]; [done|].
  cbn [Py.all_space]. intros [Hc Hl]%andb_prop.
  rewrite append_cons. cbn [Py.lstrip]. rewrite Hc. by apply IH.
Qed.

Lemma rstrip_all_space r : Py.all_space r = true → Py.rstrip r = EmptyString.
Proof.
  induction r as [|c r IH]; [done|].
  cbn [Py.all_space Py.rstrip]. intros [Hc Hr]%andb_prop.
  by rewrite (IH Hr), Hc.
Qed.

Lemma rstrip_app_space x r :
  Py.all_space r = true → Py.rstrip (String.append x r) = Py.rstrip x.
Proof.
  intros Hr. induction x as [|c x IH].
  - rewrite append_nil. by apply rstrip_all_space.
  - rewrite append_cons. cbn [Py.rstrip]. by rewrite IH.
Qed.

Lemma lstrip_app v r :
  Py.lstrip (String.append v r)
  = if Py.all_space v then Py.lstrip r else String.append (Py.lstrip v) r.
Proof.
  induction v as [|c v IH]; [done|].
  rewrite append_cons. cbn [Py.lstrip Py.all_space].
  destruct (Py.is_space c); [|done]. apply IH.
Qed.

Lemma strip_pad l v r :
  Py.all_space l = true → Py.all_space r = true →
  Py.strip (String.append l (String.append v r)) = Py.strip v.
Proof.
  intros Hl Hr. unfold Py.strip.
  rewrite (lstrip_all_space l _ Hl), lstrip_app.
  destruct (Py.all_space v) eqn:Hv.
  - by rewrite (lstrip_blank r Hr), (lstrip_blank v Hv).
  - by apply rstrip_app_space.
Qed.

Lemma safe_int_strip v :
  safe_int (Some v)
  = match Py.int (Py.strip v) with Some n => n | None => 0 end.
Proof.
  destruct (Py.int (Py.strip v)) as [n|] eqn:E.
  - by apply safe_int_parsed.
  - by apply safe_int_default.
Qed.

(** X14.  White space around the text of a column does not change what is
    imported: [safe_text], [safe_int] and [parse_date] give the same result
    for a text and for that text with any white space before and after
    it. *)
Theorem fields_ignore_padding l v r :
  Py.all_space l = true → Py.all_space r = true →
  let padded := String.append l (String.append v r) in
  safe_text (Some padded) = safe_text (Some v)
  ∧ safe_int (Some padded) = safe_int (Some v)
  ∧ parse_date (Some padded) = parse_date (Some v).
Proof.
  intros Hl Hr padded. subst padded.
  assert (∀ x, safe_text (Some x) = Py.strip x) as Htext
    by (intros x; by destruct x).
  rewrite !Htext, !safe_int_strip. unfold parse_date, Py.str.
  by rewrite !(strip_pad l v r Hl Hr).
Qed.

Lemma fields_ignore_padding_witness :
  safe_text (Some "  Lee ") = safe_text (Some "Lee")
  ∧ safe_int (Some "  12 ") = safe_int (Some "12")
  ∧ parse_date (Some "  19/11/2030 ") = parse_date (Some "19/11/2030").
Proof.
  split; [|split].
  - apply (fields_ignore_padding "  " "Lee" " "); reflexivity.
  - apply (fields_ignore_padding "  " "12" " "); reflexivity.
  - apply (fields_ignore_padding "  " "19/11/2030" " "); reflexivity.
Defined.

(** ** The dates that parse *)

Lemma strptime_calendar s fmt t :
  Datetime.strptime s fmt = Some t → calendar t.
Proof.
  unfold Datetime.strptime, Datetime.new.
  destruct (Datetime.compile fmt) as [items|]; [|done].
  destruct (Datetime.re_match items s) as [[found [|c rest]]|]; [|done..].
  destruct (Datetime.set_fields _ found) as [f|]; [|done].
  destruct (Datetime.valid_date _ _ _) eqn:Hdate; [|done]. simpl.
  destruct (Datetime.valid_time _ _ _) eqn:Htime; [|done].
  intros [= <-].
  unfold Datetime.valid_date, Datetime.valid_time, Datetime.MINYEAR,
    Datetime.MAXYEAR in *.
  repeat (apply andb_prop in Hdate as [Hdate ?]).
  repeat (apply andb_prop in Htime as [Htime ?]).
  repeat match goal with
         | H : (_ <=? _) = true |- _ => apply Z.leb_le in H
         end.
  unfold calendar.
  cbn [Datetime.year Datetime.month Datetime.day Datetime.hour
       Datetime.minute Datetime.second].
  lia.
Qed.

Lemma parse_date_calendar v t : parse_date v = Some t → calendar t.
Proof.
  intros (k & fmt & _ & Ht & _)%try_formats_Some.
  by apply strptime_calendar in Ht.
Qed.

(** X15.  Every date that an import stores is a day of the calendar: the
    [date_joined] of a member row and the [expiration_date] of an inventory
    row that [import_data] accepts have a year from 1 to 9999, a month from
    1 to 12, a day that the month has in that year, and a time of day from
    00:00:00 to 23:59:59. *)
Theorem imported_dates_calendar row :
  (∀ m, member_of_row row = Some m → calendar (date_joined m))
  ∧ (∀ i, inventory_of_row row = Some i → calendar (expiration_date i)).
Proof.
  split.
  - intros m. unfold member_of_row.
    destruct (parse_date _) as [t|] eqn:Ht; [|done].
    intros [= <-]. by apply parse_date_calendar in Ht.
  - intros i. unfold inventory_of_row.
    destruct (parse_date _) as [t|] eqn:Ht; [|done].
    intros [= <-]. by apply parse_date_calendar in Ht.
Qed.

Lemma imported_dates_calendar_witness :
  calendar (date_joined (mk_Member "Ann" "Lee" 0 (mk_datetime 2024 1 5 10 0 0)))
  ∧ calendar (expiration_date
                (mk_Inventory "Bike" "" 3 (mk_datetime 2030 11 19 0 0 0))).
Proof.
  split.
  - apply (proj1 (imported_dates_calendar row_ann)). vm_compute. reflexivity.
  - apply (proj2 (imported_dates_calendar row_bike)). vm_compute. reflexivity.
Defined.

(** ** The shape of a text that a format matches *)

Lemma kind_of_digit c : Py.is_digit c = true → kind_of c = KD.
Proof.
  destruct c as [[] [] [] [] [] [] [] []]; vm_compute; congruence.
Qed.

Lemma is_digit_range c : Py.is_digit c = true → (48 ≤ N_of_ascii c ≤ 57)%N.
Proof.
  unfold Py.is_digit, Py.digit_val.
  destruct ((48 <=? N_of_ascii c)%N && (N_of_ascii c <=? 57)%N) eqn:E;
    [|done].
  apply andb_prop in E as [?%N.leb_le ?%N.leb_le]. lia.
Qed.

Lemma range_is_digit c : (48 ≤ N_of_ascii c ≤ 57)%N → Py.is_digit c = true.
Proof.
  intros [?%N.leb_le ?%N.leb_le]. unfold Py.is_digit, Py.digit_val.
  by rewrite H, H0.
Qed.

Lemma cls_digitish_kind k c :
  cls_digitish k = true → Datetime.cls_match k c = true → kind_of c = KD.
Proof.
  destruct k as [|lo hi|x]; simpl.
  - intros _. apply kind_of_digit.
  - intros [Hlo%is_digit_range Hhi%is_digit_range]%andb_prop
           [?%N.leb_le ?%N.leb_le]%andb_prop.
    apply kind_of_digit, range_is_digit. lia.
  - intros Hx Hc%Ascii.eqb_eq. subst c.
    apply orb_prop in Hx as [Hx|Hx%Ascii.eqb_eq];
      [by apply kind_of_digit|by subst x].
Qed.

Lemma directive_regex_digitish d :
  Forall (Forall (λ k, cls_digitish k = true)) (Datetime.directive_regex d).
Proof. destruct d; repeat constructor. Qed.

Lemma shape_cons c s : shape (String c s) = kind_of c :: shape s.
Proof. reflexivity. Qed.

Lemma match_alt_shape alt s cap rest :
  Forall (λ k, cls_digitish k = true) alt →
  Datetime.match_alt alt s = Some (cap, rest) →
  shape s = (replicate (length alt) KD ++ shape rest)%list.
Proof.
  intros Halt. revert s cap.
  induction Halt as [|k alt Hk _ IH]; intros s cap; simpl.
  - by intros [= _ ->].
  - destruct s as [|c s]; [done|].
    destruct (Datetime.cls_match k c) eqn:Hc; [|done].
    destruct (Datetime.match_alt alt s) as [[cap' rest']|] eqn:Hm; [|done].
    intros [= _ <-]. rewrite shape_cons, (IH s cap' Hm).
    by rewrite (cls_digitish_kind k c Hk Hc).
Qed.

Lemma kind_of_lower c c' :
  Datetime.lower c = Datetime.lower c' → kind_of c = kind_of c'.
Proof. unfold kind_of. by intros ->. Qed.

Lemma re_match_shape items s found r :
  Datetime.re_match items s = Some (found, r) →
  ∃ sh, sh ∈ shapes items ∧ shape s = (sh ++ shape r)%list.
Proof.
  revert s found. induction items as [|[d|c] items IH]; intros s found.
  - simpl. intros [= _ ->]. exists []. split; [apply list_elem_of_here|done].
  - cbn [Datetime.re_match shapes].
    pose proof (directive_regex_digitish d) as Halts. revert Halts.
    generalize (Datetime.directive_regex d). intros alts Halts.
    induction Halts as [|alt alts Halt _ IHalts]; [done|].
    destruct (Datetime.match_alt alt s) as [[cap rest]|] eqn:Hm.
    + destruct (Datetime.re_match items rest) as [[found' r']|] eqn:Hr.
      * intros [= _ ->]. destruct (IH _ _ Hr) as (sh & Hsh & Hshape).
        exists (replicate (length alt) KD ++ sh)%list. split.
        -- apply list_elem_of_bind. exists alt.
           split; [|apply list_elem_of_here].
           apply list_elem_of_fmap. by exists sh.
        -- rewrite (match_alt_shape alt s cap rest Halt Hm), Hshape.
           by rewrite app_assoc.
      * intros H. destruct (IHalts H) as (sh & Hsh & Hshape).
        exists sh. split; [|done].
        apply list_elem_of_bind in Hsh as (alt' & ? & ?).
        apply list_elem_of_bind. exists alt'.
        split; [done|by apply list_elem_of_further].
    + intros H. destruct (IHalts H) as (sh & Hsh & Hshape).
      exists sh. split; [|done].
      apply list_elem_of_bind in Hsh as (alt' & ? & ?).
      apply list_elem_of_bind. exists alt'.
      split; [done|by apply list_elem_of_further].
  - cbn [Datetime.re_match shapes]. destruct s as [|c' s]; [done|].
    destruct (Ascii.eqb _ _) eqn:Hc; [|done].
    apply Ascii.eqb_eq in Hc. intros Hr.
    destruct (IH _ _ Hr) as (sh & Hsh & Hshape).
    exists (kind_of c :: sh). split.
    + apply list_elem_of_fmap. by exists sh.
    + rewrite shape_cons, Hshape. by rewrite (kind_of_lower c c' Hc).
Qed.

Lemma strptime_shape s fmt t :
  Datetime.strptime s fmt = Some t → shape s ∈ format_shapes fmt.
Proof.
  unfold Datetime.strptime, format_shapes.
  destruct (Datetime.compile fmt) as [items|]; [|done].
  destruct (Datetime.re_match items s) as [[found [|c rest]]|] eqn:Hm;
    [|done..].
  intros _. destruct (re_match_shape _ _ _ _ Hm) as (sh & Hsh & ->).
  by rewrite app_nil_r.
Qed.

Lemma shapes_exclusive :
  Forall (λ sh, length (filter (λ fmt, sh ∈ format_shapes fmt) formats) = 1%nat)
         (fmt ← formats; format_shapes fmt).
Proof. apply (bool_decide_unpack _). vm_compute. exact I. Qed.

Lemma length_one_unique {A} (l : list A) x y :
  length l = 1%nat → x ∈ l → y ∈ l → x = y.
Proof.
  destruct l as [|a [|b l]]; [done| |done].
  by intros _ ->%list_elem_of_singleton ->%list_elem_of_singleton.
Qed.

Lemma formats_disjoint s fmt1 fmt2 t1 t2 :
  fmt1 ∈ formats → fmt2 ∈ formats →
  Datetime.strptime s fmt1 = Some t1 →
  Datetime.strptime s fmt2 = Some t2 →
  fmt1 = fmt2.
Proof.
  intros Hf1 Hf2 H1%strptime_shape H2%strptime_shape.
  pose proof shapes_exclusive as Hex. rewrite Forall_forall in Hex.
  apply (length_one_unique
           (filter (λ fmt, shape s ∈ format_shapes fmt) formats)).
  - apply Hex, list_elem_of_bind. by exists fmt1.
  - by apply list_elem_of_filter.
  - by apply list_elem_of_filter.
Qed.

(** X16.  The six formats of [parse_date] do not overlap: no text is parsed
    by two of them, so a date text is never read in a way that depends on
    which format is tried first. *)
Theorem formats_exclusive s fmt1 fmt2 t1 t2 :
  fmt1 ∈ formats → fmt2 ∈ formats →
  Datetime.strptime s fmt1 = Some t1 →
  Datetime.strptime s fmt2 = Some t2 →
  fmt1 = fmt2.
Proof. apply formats_disjoint. Qed.

Lemma formats_exclusive_witness : "%d/%m/%Y" = "%d/%m/%Y".
Proof.
  apply (formats_exclusive "19/11/2030" "%d/%m/%Y" "%d/%m/%Y"
           (mk_datetime 2030 11 19 0 0 0) (mk_datetime 2030 11 19 0 0 0)).
  - apply list_elem_of_further, list_elem_of_here.
  - apply list_elem_of_further, list_elem_of_here.
  - vm_compute. reflexivity.
  - vm_compute. reflexivity.
Defined.

Lemma try_formats_any s fmts t :
  (∀ f1 f2 t1 t2, f1 ∈ fmts → f2 ∈ fmts →
     Datetime.strptime s f1 = Some t1 → Datetime.strptime s f2 = Some t2 →
     f1 = f2) →
  try_formats s fmts = Some t ↔
  ∃ fmt, fmt ∈ fmts ∧ Datetime.strptime s fmt = Some t.
Proof.
  intros Hex. split.
  - intros (k & fmt & Hk & Ht & _)%try_formats_Some.
    exists fmt. split; [|done]. by apply list_elem_of_lookup_2 in Hk.
  - induction fmts as [|f fmts IH]; intros (fmt & Hfmt & Ht).
    + by apply elem_of_nil in Hfmt.
    + simpl. destruct (Datetime.strptime s f) as [t'|] eqn:Hf.
      * assert (f = fmt) as ->.
        { apply (Hex _ _ t' t); [apply list_elem_of_here|done..]. }
        congruence.
      * apply IH.
        -- intros f1 f2 t1 t2 ? ?. apply Hex; by apply list_elem_of_further.
        -- exists fmt. split; [|done].
           apply elem_of_cons in Hfmt as [->|?]; [congruence|done].
Qed.

(** X17.  [parse_date] would give the same result with its six formats
    listed in any other order. *)
Theorem formats_order_free fmts' v :
  fmts' ≡ₚ formats →
  try_formats (Py.strip (Py.str v)) fmts' = parse_date v.
Proof.
  intros Hperm. unfold parse_date. apply option_eq. intros t.
  rewrite !try_formats_any.
  - split; intros (fmt & Hfmt & Ht); exists fmt; split; try done.
    + by rewrite <- Hperm.
    + by rewrite Hperm.
  - intros f1 f2 t1 t2. apply formats_disjoint.
  - intros f1 f2 t1 t2 Hf1 Hf2. rewrite Hperm in Hf1, Hf2.
    by apply formats_disjoint.
Qed.

Lemma formats_order_free_witness :
  try_formats (Py.strip (Py.str (Some " 19-11-30 "))) (reverse formats)
  = parse_date (Some " 19-11-30 ").
Proof.
  apply (formats_order_free (reverse formats) (Some " 19-11-30 ")).
  apply reverse_Permutation.
Defined.

(** ** What the directives capture *)

Lemma re_match_dir_inv d items s found r :
  Datetime.re_match (Dir d :: items) s = Some (found, r) →
  ∃ alt cap rest found',
    alt ∈ Datetime.directive_regex d
    ∧ Datetime.match_alt alt s = Some (cap, rest)
    ∧ Datetime.re_match items rest = Some (found', r)
    ∧ found = (d, cap) :: found'.
Proof.
  cbn [Datetime.re_match]. generalize (Datetime.directive_regex d).
  intros alts. induction alts as [|alt alts IH]; [done|].
  destruct (Datetime.match_alt alt s) as [[cap rest]|] eqn:Hm.
  - destruct (Datetime.re_match items rest) as [[found' r']|] eqn:Hr.
    + intros [= <- <-]. exists alt, cap, rest, found'.
      split; [apply list_elem_of_here|done].
    + intros (alt' & cap' & rest' & found'' & ? & ?)%IH.
      exists alt', cap', rest', found''. split; [|done].
      by apply list_elem_of_further.
  - intros (alt' & cap' & rest' & found'' & ? & ?)%IH.
    exists alt', cap', rest', found''. split; [|done].
    by apply list_elem_of_further.
Qed.

Lemma re_match_lit_inv c items s found r :
  Datetime.re_match (Lit c :: items) s = Some (found, r) →
  ∃ c' s', s = String c' s' ∧ Datetime.re_match items s' = Some (found, r).
Proof.
  cbn [Datetime.re_match]. destruct s as [|c' s']; [done|].
  destruct (Ascii.eqb _ _); [|done]. intros H. by exists c', s'.
Qed.

(** The groups that a match finds are those of the directives of the
    format, in order, each with a text that one of the alternatives of the
    directive matches. *)
Lemma re_match_found items s found r :
  Datetime.re_match items s = Some (found, r) →
  fst <$> found = directives items
  ∧ Forall (λ g, ∃ alt s' rest,
                   alt ∈ Datetime.directive_regex g.1
                   ∧ Datetime.match_alt alt s' = Some (g.2, rest)) found.
Proof.
  revert s found. induction items as [|[d|c] items IH]; intros s found.
  - simpl. by intros [= <- _].
  - intros (alt & cap & rest & found' & Halt & Hm & Hr & ->)%re_match_dir_inv.
    destruct (IH _ _ Hr) as [Hd Hcap]. split.
    + change (d :: (fst <$> found') = d :: directives items). by rewrite Hd.
    + constructor; [|done]. by exists alt, s, rest.
  - intros (c' & s' & -> & Hr)%re_match_lit_inv. by apply IH in Hr.
Qed.

Lemma set_fields_time f found f' :
  Datetime.set_fields f found = Some f' →
  dH ∉ fst <$> found → dM ∉ fst <$> found → dS ∉ fst <$> found →
  Datetime.f_hour f' = Datetime.f_hour f
  ∧ Datetime.f_minute f' = Datetime.f_minute f
  ∧ Datetime.f_second f' = Datetime.f_second f.
Proof.
  revert f. induction found as [|[d cap] found IH]; intros f; simpl.
  - by intros [= <-].
  - unfold Datetime.set_field. simpl.
    destruct (Py.int cap) as [v|]; [|done].
    intros Hf [? HH]%not_elem_of_cons [? HM]%not_elem_of_cons
           [? HS]%not_elem_of_cons.
    destruct (IH _ Hf HH HM HS) as (-> & -> & ->).
    by destruct d.
Qed.

Lemma strptime_date_only s fmt items t :
  Datetime.compile fmt = Some items →
  dH ∉ directives items → dM ∉ directives items → dS ∉ directives items →
  Datetime.strptime s fmt = Some t →
  Datetime.hour t = 0 ∧ Datetime.minute t = 0 ∧ Datetime.second t = 0.
Proof.
  intros Hc HH HM HS. unfold Datetime.strptime, Datetime.new. rewrite Hc.
  destruct (Datetime.re_match items s) as [[found [|c rest]]|] eqn:Hm;
    [|done..].
  apply re_match_found in Hm as [Hd _]. rewrite <- Hd in HH, HM, HS.
  destruct (Datetime.set_fields _ found) as [f|] eqn:Hf; [|done].
  destruct (set_fields_time _ _ _ Hf HH HM HS) as (Hh & Hmi & Hs).
  destruct (Datetime.valid_date _ _ _); [|done].
  destruct (_ && _); [|done]. intros [= <-]. by simpl.
Qed.

(** X18.  A date text without a time is read as midnight: when
    [parse_date] accepts a text that the first format, the one with a time,
    does not parse, the [datetime] it returns has hour, minute and second
    0. *)
Theorem parse_date_midnight v t :
  parse_date v = Some t →
  Datetime.strptime (Py.strip (Py.str v)) "%Y-%m-%dT%H:%M:%S" = None →
  Datetime.hour t = 0 ∧ Datetime.minute t = 0 ∧ Datetime.second t = 0.
Proof.
  intros (k & fmt & Hk & Ht & _)%try_formats_Some Hfirst.
  apply list_elem_of_lookup_2 in Hk. unfold formats in Hk.
  repeat (apply elem_of_cons in Hk as [->|Hk]);
    [congruence|..|by apply elem_of_nil in Hk];
    (eapply strptime_date_only; [| | | |exact Ht]; [reflexivity|..];
     vm_compute; intros H;
     repeat (apply elem_of_cons in H as [H|H]; [discriminate|]);
     by apply elem_of_nil in H).
Qed.

Lemma parse_date_midnight_witness :
  Datetime.hour (mk_datetime 2030 11 19 0 0 0) = 0
  ∧ Datetime.minute (mk_datetime 2030 11 19 0 0 0) = 0
  ∧ Datetime.second (mk_datetime 2030 11 19 0 0 0) = 0.
Proof.
  apply (parse_date_midnight (Some "19/11/2030")); vm_compute; reflexivity.
Defined.

(** ** Years of two digits *)

Lemma two_digits_int a b :
  Py.is_digit a = true → Py.is_digit b = true →
  ∃ v, Py.int (String a (String b EmptyString)) = Some v ∧ 0 ≤ v ≤ 99.
Proof.
  intros Ha Hb.
  destruct a as [[] [] [] [] [] [] [] []];
    try (vm_compute in Ha; discriminate);
    destruct b as [[] [] [] [] [] [] [] []];
    try (vm_compute in Hb; discriminate);
    (eexists; split; [vm_compute; reflexivity|lia]).
Qed.

Lemma match_two_digits s cap rest :
  Datetime.match_alt [Datetime.Digit; Datetime.Digit] s = Some (cap, rest) →
  ∃ a b, cap = String a (String b EmptyString)
         ∧ Py.is_digit a = true ∧ Py.is_digit b = true.
Proof.
  destruct s as [|a [|b s]]; simpl; [done| |].
  - by destruct (Py.is_digit a).
  - destruct (Py.is_digit a) eqn:Ha; [|done].
    destruct (Py.is_digit b) eqn:Hb; [|done].
    intros [= <- _]. by exists a, b.
Qed.

Lemma strptime_two_digit_year s c t :
  Datetime.compile (String "%" (String "d" (String c
                   (String "%" (String "m" (String c "%y"))))))
  = Some [Dir dd; Lit c; Dir dm; Lit c; Dir dy] →
  Datetime.strptime s (String "%" (String "d" (String c
                      (String "%" (String "m" (String c "%y"))))))
  = Some t →
  1969 ≤ Datetime.year t ≤ 2068.
Proof.
  intros Hc. unfold Datetime.strptime, Datetime.new. rewrite Hc.
  destruct (Datetime.re_match _ s) as [[found [|c' rest]]|] eqn:Hm;
    [|done..].
  apply re_match_found in Hm as [Hd Hcap].
  destruct found as [|[d1 c1] [|[d2 c2] [|[d3 c3] [|? ?]]]]; try done.
  injection Hd as -> -> ->.
  apply Forall_cons in Hcap as [_ Hcap].
  apply Forall_cons in Hcap as [_ Hcap].
  apply Forall_cons in Hcap as [(alt & s' & rest & Halt & Hy) _].
  simpl in Halt. apply list_elem_of_singleton in Halt as ->.
  apply match_two_digits in Hy as (a & b & Hc3 & Ha & Hb). simpl in Hc3.
  destruct (two_digits_int a b Ha Hb) as (v & Hv & Hrange).
  rewrite <- Hc3 in Hv.
  unfold Datetime.set_fields, Datetime.set_field. simpl.
  destruct (Py.int c1) as [v1|]; [|done].
  destruct (Py.int c2) as [v2|]; [|done].
  rewrite Hv. unfold Datetime.default_year. simpl.
  destruct (Datetime.valid_date _ _ _); [|done].
  destruct (_ && _); [|done]. intros [= <-]. simpl.
  destruct (Z.leb_spec v 68); lia.
Qed.

(** X19.  The two formats with a year of two digits read it as a year from
    1969 to 2068: 69 to 99 are 1969 to 1999, and 00 to 68 are 2000 to
    2068. *)
Theorem two_digit_year s fmt t :
  fmt = "%d/%m/%y" ∨ fmt = "%d-%m-%y" →
  Datetime.strptime s fmt = Some t →
  1969 ≤ Datetime.year t ≤ 2068.
Proof.
  intros [->| ->]; by apply strptime_two_digit_year.
Qed.

Lemma two_digit_year_witness :
  1969 ≤ Datetime.year (mk_datetime 1969 11 19 0 0 0) ≤ 2068
  ∧ 1969 ≤ Datetime.year (mk_datetime 2068 11 19 0 0 0) ≤ 2068.
Proof.
  split.
  - apply (two_digit_year "19/11/69" "%d/%m/%y"); [by left|].
    vm_compute. reflexivity.
  - apply (two_digit_year "19-11-68" "%d-%m-%y"); [by right|].
    vm_compute. reflexivity.
Defined.

(** ** Imports between bookings *)










